(** * The match-state engine of minicup_administration

    A shallow embedding of [core/models/core.py]: the [Match] and
    [MatchEvent] Django models, the transition operation
    [Match.change_state] and the two [serialize] projections.

    Python values are embedded as follows.
    - [str] is [string]; a nullable column is an [option].
    - A [dict] is a [gmap]; a [tuple] is a [list].
    - A [datetime] is represented by its POSIX timestamp.
    - Code that may raise lives in an error-and-state monad whose state
      survives an exception, as a Python heap and a database do.
    - The database is a table of match rows keyed by primary key and a
      table of events in insertion order. *)

From Stdlib Require Import ZArith QArith String.
From stdpp Require Import base option list strings gmap fin_maps.

Local Open Scope Z_scope.
Local Open Scope string_scope.

(** ** Python values and builtins *)

#[local] Set Warnings "-register-all".

Inductive PyVal : Type :=
| PyNone
| PyInt (z : Z)
| PyFloat (q : Q)
| PyStr (s : string)
| PyList (l : list PyVal).

Definition py_opt {A : Type} (f : A → PyVal) (o : option A) : PyVal :=
  match o with Some a => f a | None => PyNone end.

Inductive exn : Type :=
| DoesNotExist
| DatabaseError
| IndexError
| ValueError
| TypeError
| RuntimeError (msg : string).

Inductive result (A : Type) : Type :=
| Ok (a : A)
| Raise (e : exn).
Arguments Ok {A} a.
Arguments Raise {A} e.

(** [sub in s] for two strings: substring containment. *)
Fixpoint str_contains (s sub : string) : bool :=
  String.prefix sub s ||
  match s with
  | EmptyString => false
  | String _ s' => str_contains s' sub
  end.

(** What [dict.get(key, default)] hands to the [in] operator in
    [change_state]: a tuple of states found in the table, or the default,
    which is a single state name. *)
Inductive container : Type :=
| Tuple (items : list string)
| Str (s : string).

(** [x in c]: element equality on a tuple, substring test on a string. *)
Definition py_in (x : string) (c : container) : bool :=
  match c with
  | Tuple items => bool_decide (x ∈ items)
  | Str s => str_contains s x
  end.

(** Truth value of a nullable string: [None] and [''] are falsy. *)
Definition truthy (o : option string) : bool :=
  match o with
  | None => false
  | Some s => negb (String.eqb s "")
  end.

(** [bool(d)] for a nullable [datetime]: a [datetime] is always truthy. *)
Definition bool_datetime {A : Type} (o : option A) : bool :=
  match o with Some _ => true | None => false end.

(** ['{}'.format(o)] *)
Definition format_opt (o : option string) : string :=
  match o with Some s => s | None => "None" end.

(** [t.index(x)] raises [ValueError] when no element equals [x]. *)
Fixpoint tuple_index {A B : Type} (eqb : A → B → bool) (t : list A) (x : B)
  : result Z :=
  match t with
  | [] => Raise ValueError
  | a :: t' =>
      if eqb a x then Ok 0
      else match tuple_index eqb t' x with
           | Ok i => Ok (1 + i)
           | Raise e => Raise e
           end
  end.

(** [t[i]] *)
Definition tuple_getitem {A : Type} (t : list A) (i : nat) : result A :=
  match t !! i with
  | Some a => Ok a
  | None => Raise IndexError
  end.

(** [dict(k1=v1, ..., **kwargs)]: a keyword given explicitly and again in
    [kwargs] is a [TypeError] (multiple values for keyword argument). *)
Definition dict_call (explicit : list (string * PyVal))
    (kwargs : gmap string PyVal) : result (gmap string PyVal) :=
  if bool_decide (Exists (λ kv, is_Some (kwargs !! kv.1)) explicit)
  then Raise TypeError
  else Ok (list_to_map explicit ∪ kwargs).

(** [datetime] and [timedelta] *)
Record datetime : Type := { posix : Q }.
Definition timestamp (d : datetime) : PyVal := PyFloat (posix d).

Record timedelta : Type := { seconds : Z }.
Definition timedelta_minutes (n : Z) : timedelta := {| seconds := n * 60 |}.
(** [total_seconds()] is a float; for a whole number of minutes it is the
    integer below, which is what the integer column [time_offset] stores. *)
Definition total_seconds (d : timedelta) : Z := seconds d.

(** ** The error-and-state monad *)

Definition M (S A : Type) : Type := S → result A * S.

Definition ret {S A : Type} (a : A) : M S A := λ s, (Ok a, s).
Definition raise {S A : Type} (e : exn) : M S A := λ s, (Raise e, s).
Definition bind {S A B : Type} (c : M S A) (k : A → M S B) : M S B :=
  λ s, match c s with
       | (Ok a, s') => k a s'
       | (Raise e, s') => (Raise e, s')
       end.
Definition gets {S A : Type} (f : S → A) : M S A := λ s, (Ok (f s), s).
Definition modify {S : Type} (f : S → S) : M S unit := λ s, (Ok tt, f s).
Definition lift {S A : Type} (r : result A) : M S A := λ s, (r, s).

Notation "'let!' x ':=' c 'in' k" := (bind c (λ x, k))
  (at level 10, x name, c at level 100, k at level 200, only parsing).
Notation "'run!' c 'in' k" := (bind c (λ _, k))
  (at level 10, c at level 100, k at level 200, only parsing).

(** ** Reference data read by the serializers *)

Module Category.
Record t : Type := mk { id : Z; name : string }.
End Category.

Module TeamInfo.
Record t : Type := mk {
  id : Z;
  name : string;
  dress_color : option string;
  dress_color_secondary : option string;
}.
(** Django model equality: same model class and same primary key. *)
Definition eqb (a b : t) : bool := Z.eqb (id a) (id b).
End TeamInfo.

Module Player.
Record t : Type := mk { id : Z; name : string; surname : string; number : Z }.
End Player.

(** ** MatchEvent *)

Module MatchEvent.
Record t : Type := mk {
  id : option Z;
  match_id : Z;
  score_home : option Z;
  score_away : option Z;
  message : option string;
  type : option string;
  half_index : option Z;
  time_offset : option Z;
  player : option Player.t;
  team_info : option TeamInfo.t;
}.

Definition TYPE_START := "start".
Definition TYPE_GOAL := "goal".
Definition TYPE_END := "end".
Definition TYPE_INFO := "info".

Definition HALF_INDEX_FIRST := 0.
Definition HALF_INDEX_SECOND := 1.

(** [MatchEvent(match=m)]: every other field is unset. *)
Definition new (m : Z) : t :=
  mk None m None None None None None None None None.

Definition set_id (i : Z) (e : t) : t :=
  mk (Some i) (match_id e) (score_home e) (score_away e) (message e)
     (type e) (half_index e) (time_offset e) (player e) (team_info e).

(** The three assignments every accepting branch of [change_state]
    makes: [event.type], [event.half_index], [event.time_offset]. *)
Definition stamp (ty : string) (half offset : Z) (e : t) : t :=
  mk (id e) (match_id e) (score_home e) (score_away e) (message e)
     (Some ty) (Some half) (Some offset) (player e) (team_info e).

(** [x or 0] *)
Definition or0 (o : option Z) : Z :=
  match o with
  | Some z => if Z.eqb z 0 then 0 else z
  | None => 0
  end.

Definition score (self : t) : Z * Z :=
  (or0 (score_home self), or0 (score_away self)).

(** [a == x] as [tuple.index] evaluates it for a team [a] of the match
    and the event's nullable team reference [x]. *)
Definition team_eqb (a : TeamInfo.t) (x : option TeamInfo.t) : bool :=
  match x with
  | Some b => TeamInfo.eqb a b
  | None => false
  end.

(** [serialize]; [teams] is [self.match.teams]. *)
Definition serialize (self : t) (teams : list TeamInfo.t)
  : result (gmap string PyVal) :=
  let team_index :=
    match tuple_index team_eqb teams (team_info self) with
    | Ok i => Ok i
    | Raise ValueError => Ok (-1)
    | Raise e => Raise e
    end in
  match team_index with
  | Raise e => Raise e
  | Ok team_index =>
      dict_call
        [ ("id", py_opt PyInt (id self));
          ("time_offset", py_opt PyInt (time_offset self));
          ("half_index", py_opt PyInt (half_index self));
          ("message", py_opt PyStr (message self));
          ("score", PyList [PyInt (score self).1; PyInt (score self).2]);
          ("type", py_opt PyStr (type self));
          ("team_index", PyInt team_index);
          ("player_name",
            py_opt (λ p, PyStr (Player.name p +:+ " " +:+ Player.surname p))
                   (player self));
          ("player_number", py_opt (λ p, PyInt (Player.number p)) (player self)) ]
        ∅
  end.
End MatchEvent.

(** ** Match *)

Module Match.
Record t : Type := mk {
  id : Z;
  match_term : option Z;
  category : Category.t;
  home_team_info : TeamInfo.t;
  away_team_info : TeamInfo.t;
  score_home : option Z;
  score_away : option Z;
  confirmed : option datetime;
  confirmed_as : option Z;
  online_state : option string;
  first_half_start : option datetime;
  second_half_start : option datetime;
  facebook_video_id : option string;
}.

Definition set_online_state (st : option string) (m : t) : t :=
  mk (id m) (match_term m) (category m) (home_team_info m)
     (away_team_info m) (score_home m) (score_away m) (confirmed m)
     (confirmed_as m) st (first_half_start m) (second_half_start m)
     (facebook_video_id m).

Definition STATE_INIT := "init".
Definition STATE_HALF_FIRST := "half_first".
Definition STATE_HALF_PAUSE := "pause".
Definition STATE_HALF_SECOND := "half_second".
Definition STATE_END := "end".

Definition STATES : gmap string (list string) :=
  list_to_map
    [ (STATE_INIT, [STATE_HALF_FIRST]);
      (STATE_HALF_FIRST, [STATE_HALF_PAUSE]);
      (STATE_HALF_PAUSE, [STATE_HALF_SECOND]);
      (STATE_HALF_SECOND, [STATE_END]);
      (STATE_END, []) ].

(** Indexed by [bool(match.confirmed)]. *)
Definition DEFAULT_STATES : list string := [STATE_INIT; STATE_END].

Definition HALF_LENGTH : timedelta := timedelta_minutes 10.

(** [STATES.get(key, default)]; [None] is hashable and is no key. *)
Definition STATES_get (key : option string) (default : string) : container :=
  match key ≫= (STATES !!.) with
  | Some successors => Tuple successors
  | None => Str default
  end.

Definition teams (self : t) : list TeamInfo.t :=
  [home_team_info self; away_team_info self].

Definition format_color (team : TeamInfo.t) : PyVal :=
  if truthy (TeamInfo.dress_color_secondary team)
  then PyStr (format_opt (TeamInfo.dress_color team) +:+ " / " +:+
              format_opt (TeamInfo.dress_color_secondary team))
  else py_opt PyStr (TeamInfo.dress_color team).

(** [a or b] on the nullable state string. *)
Definition or_else (a : option string) (b : string) : string :=
  match a with
  | Some s => if truthy (Some s) then s else b
  | None => b
  end.

(** The keyword arguments [serialize] writes out itself. *)
Definition snapshot_fields (self : t) : list (string * PyVal) :=
  [ ("id", PyInt (id self));
    ("home_team_name", PyStr (TeamInfo.name (home_team_info self)));
    ("home_team_id", PyInt (TeamInfo.id (home_team_info self)));
    ("away_team_name", PyStr (TeamInfo.name (away_team_info self)));
    ("away_team_id", PyInt (TeamInfo.id (away_team_info self)));
    ("home_team_color", PyStr "#ff8574");
    ("away_team_color", PyStr "#88dd12");
    ("home_team_color_name", format_color (home_team_info self));
    ("away_team_color_name", format_color (away_team_info self));
    ("category_name", PyStr (Category.name (category self)));
    ("first_half_start", py_opt timestamp (first_half_start self));
    ("second_half_start", py_opt timestamp (second_half_start self));
    ("score", PyList [py_opt PyInt (score_home self);
                      py_opt PyInt (score_away self)]);
    ("confirmed", py_opt timestamp (confirmed self));
    ("half_length", PyFloat (inject_Z (total_seconds HALF_LENGTH)));
    ("state",
      PyStr (or_else (online_state self)
               (if bool_datetime (confirmed self) then STATE_END
                else STATE_INIT)));
    ("facebook_video_id", py_opt PyStr (facebook_video_id self)) ].

(** [serialize(self, **kwargs)]; [kwargs] is the dictionary bound to the
    double-star parameter. *)
Definition serialize (self : t) (kwargs : gmap string PyVal)
  : result (gmap string PyVal) :=
  dict_call (snapshot_fields self) kwargs.

(** The call of [serialize] on an instance with the keywords a caller
    writes, spelled out or behind a double star. Python binds
    the parameter [self] to the instance first, so a keyword named [self]
    is a [TypeError] (multiple values for argument 'self') and the body
    does not run; every other keyword is collected into [kwargs]. *)
Definition serialize_call (self : t) (keywords : gmap string PyVal)
  : result (gmap string PyVal) :=
  if bool_decide (is_Some (keywords !! "self")) then Raise TypeError
  else serialize self keywords.

(** *** The heap and the database seen by [change_state] *)

Inductive level : Type := ERROR | INFO.

Record Env : Type := mkEnv {
  self : t;                      (* the in-memory instance *)
  matches : gmap Z t;            (* table [match], by primary key *)
  events : list MatchEvent.t;    (* table [match_event], insertion order *)
  event_seq : Z;                 (* next auto-increment id of an event *)
  log : list (level * string);   (* calls made to the [logging] module *)
}.

Definition with_self (m : t) (s : Env) : Env :=
  mkEnv m (matches s) (events s) (event_seq s) (log s).
Definition with_matches (ms : gmap Z t) (s : Env) : Env :=
  mkEnv (self s) ms (events s) (event_seq s) (log s).

(** [logging.error(msg)] and [logging.info(msg)]: the call is recorded, with
    its level and message. Whether the root logger then writes anything is
    a matter of its configuration (by default it drops what is below
    WARNING), which is outside this file. *)
Definition logging (l : level) (msg : string) : M Env unit :=
  modify (λ s, mkEnv (self s) (matches s) (events s) (event_seq s)
                     (log s ++ [(l, msg)])).

(** [self.refresh_from_db()]: reload every field from the row with this
    primary key. *)
Definition refresh_from_db : M Env unit :=
  λ s, match matches s !! id (self s) with
       | Some row => (Ok tt, with_self row s)
       | None => (Raise DoesNotExist, s)
       end.

(** [self.save(update_fields=('online_state',))]: one UPDATE of the one
    column; Django raises when it touched no row. *)
Definition save_online_state : M Env unit :=
  λ s, match matches s !! id (self s) with
       | Some row =>
           (Ok tt,
            with_matches
              (<[id (self s) := set_online_state (online_state (self s)) row]>
                 (matches s)) s)
       | None => (Raise DatabaseError, s)
       end.

(** [event.save()] of a new event: INSERT, the key comes back. *)
Definition MatchEvent_save (e : MatchEvent.t) : M Env MatchEvent.t :=
  λ s, let e' := MatchEvent.set_id (event_seq s) e in
       (Ok e',
        mkEnv (self s) (matches s) (events s ++ [e']) (event_seq s + 1)
              (log s)).

Definition str_eqb (o : option string) (k : string) : bool :=
  match o with
  | Some s => String.eqb s k
  | None => false
  end.

(** [change_state(self, new_state)]. [Ok None] is the bare [return] of the
    two guards, [Ok (Some event)] the saved event, [Raise] an exception;
    what was written before an exception stays written. *)
Definition change_state (new_state : string) : M Env (option MatchEvent.t) :=
  run! refresh_from_db in
  let! this := gets self in
  if negb (bool_decide (is_Some (STATES !! new_state))) then
    run! logging ERROR ("Unknown state " +:+ new_state +:+ " to set.") in
    ret None
  else
  let! default :=
    lift (tuple_getitem DEFAULT_STATES
            (Nat.b2n (bool_datetime (confirmed this)))) in
  if negb (py_in new_state (STATES_get (online_state this) default)) then
    run! logging ERROR
           ("Cannot go from " +:+ format_opt (online_state this) +:+
            " to " +:+ new_state +:+ ".") in
    ret None
  else
  run! logging INFO
         ("Changing match state from " +:+ format_opt (online_state this) +:+
          " to " +:+ new_state +:+ ".") in
  let old_state := online_state this in
  run! modify (λ s, with_self (set_online_state (Some new_state) (self s)) s) in
  run! save_online_state in
  let event := MatchEvent.new (id this) in
  let! event :=
    if negb (truthy old_state) || str_eqb old_state STATE_INIT then
      ret (MatchEvent.stamp MatchEvent.TYPE_START 0 0 event)
    else if str_eqb old_state STATE_HALF_FIRST then
      ret (MatchEvent.stamp MatchEvent.TYPE_END 0
             (total_seconds HALF_LENGTH) event)
    else if str_eqb old_state STATE_HALF_PAUSE then
      ret (MatchEvent.stamp MatchEvent.TYPE_START 1 0 event)
    else if str_eqb old_state STATE_HALF_SECOND then
      ret (MatchEvent.stamp MatchEvent.TYPE_END 1
             (total_seconds HALF_LENGTH) event)
    else
      raise (RuntimeError
               ("Never happen: " +:+ format_opt old_state +:+ " -> " +:+
                new_state +:+ "."))
  in
  let! event := MatchEvent_save event in
  ret (Some event).
End Match.

(** ** Notions used to state the properties *)

(** The match of the in-memory instance is in the table, under its key. *)
Definition stored (s : Match.Env) (row : Match.t) : Prop :=
  Match.matches s !! Match.id (Match.self s) = Some row ∧
  Match.id row = Match.id (Match.self s).

(** The value of [DEFAULT_STATES[bool(self.confirmed)]]. *)
Definition default_state (row : Match.t) : string :=
  if bool_datetime (Match.confirmed row) then Match.STATE_END
  else Match.STATE_INIT.

(** The branch of the event-synthesis conditional that a previous state
    selects: type, half index and time offset, or none for the last
    branch. *)
Definition event_kind (old_state : option string) : option (string * Z * Z) :=
  if negb (truthy old_state) || Match.str_eqb old_state Match.STATE_INIT
  then Some (MatchEvent.TYPE_START, 0, 0)
  else if Match.str_eqb old_state Match.STATE_HALF_FIRST
  then Some (MatchEvent.TYPE_END, 0, total_seconds Match.HALF_LENGTH)
  else if Match.str_eqb old_state Match.STATE_HALF_PAUSE
  then Some (MatchEvent.TYPE_START, 1, 0)
  else if Match.str_eqb old_state Match.STATE_HALF_SECOND
  then Some (MatchEvent.TYPE_END, 1, total_seconds Match.HALF_LENGTH)
  else None.

(** What a caller observes of an event: type, half index, time offset. *)
Definition event_triple (e : MatchEvent.t)
  : option string * option Z * option Z :=
  (MatchEvent.type e, MatchEvent.half_index e, MatchEvent.time_offset e).

(** The persisted [online_state] of the match of the in-memory instance. *)
Definition persisted_state (s : Match.Env) : option (option string) :=
  Match.online_state <$> Match.matches s !! Match.id (Match.self s).

(** Repeated calls of [change_state], one per requested state; each call is
    recorded with what it returned and the state persisted after it. *)
Fixpoint drive (targets : list string)
  : M Match.Env (list (option MatchEvent.t * option (option string))) :=
  match targets with
  | [] => ret []
  | target :: rest =>
      let! r := Match.change_state target in
      let! st := gets persisted_state in
      let! rs := drive rest in
      ret ((r, st) :: rs)
  end.

(** The keys of the fixed snapshot shape of a match. *)
Definition snapshot_keys : list string :=
  [ "id"; "home_team_name"; "home_team_id"; "away_team_name"; "away_team_id";
    "home_team_color"; "away_team_color"; "home_team_color_name";
    "away_team_color_name"; "category_name"; "first_half_start";
    "second_half_start"; "score"; "confirmed"; "half_length"; "state";
    "facebook_video_id" ].

(** The environment a rejected call leaves: the instance reloaded, one
    error record logged, the tables as they were. *)
Definition after_rejection (s : Match.Env) (row : Match.t) (msg : string)
  : Match.Env :=
  Match.mkEnv row (Match.matches s) (Match.events s) (Match.event_seq s)
    (Match.log s ++ [(Match.ERROR, msg)]).

(** The environment once a call has passed both guards and persisted the
    new state, before the event is synthesized. *)
Definition after_persist (s : Match.Env) (row : Match.t) (new_state : string)
  : Match.Env :=
  let row' := Match.set_online_state (Some new_state) row in
  Match.mkEnv row'
    (<[Match.id row := row']> (Match.matches s))
    (Match.events s) (Match.event_seq s)
    (Match.log s ++
       [(Match.INFO,
         "Changing match state from " +:+ format_opt (Match.online_state row) +:+
         " to " +:+ new_state +:+ ".")]).

(** ** Sample records *)

Definition sample_category : Category.t := Category.mk 3 "U12".
Definition sample_home : TeamInfo.t :=
  TeamInfo.mk 10 "Litovel" (Some "red") (Some "white").
Definition sample_away : TeamInfo.t :=
  TeamInfo.mk 20 "Olomouc" (Some "blue") (Some "").
Definition sample_third : TeamInfo.t :=
  TeamInfo.mk 30 "Prostejov" None None.

(** A match between the two sample teams with the given confirmation and
    online state. *)
Definition sample_match (conf : option datetime) (st : option string)
  : Match.t :=
  Match.mk 7 None sample_category sample_home sample_away None None conf
    None st None None None.

Definition sample_time : datetime := {| posix := inject_Z 1500000000 |}.

(** Never started: no online state, no confirmation. *)
Definition match_unset : Match.t := sample_match None (Some "").
(** Confirmed by the result workflow, never run through the state machine. *)
Definition match_unset_confirmed : Match.t :=
  sample_match (Some sample_time) (Some "").
Definition match_init : Match.t := sample_match None (Some Match.STATE_INIT).
Definition match_half_first : Match.t :=
  sample_match None (Some Match.STATE_HALF_FIRST).
(** A row whose state column holds a value outside the table. *)
Definition match_corrupt : Match.t := sample_match None (Some "overtime").
(** A row whose two team references are the same team. *)
Definition match_same_teams : Match.t :=
  Match.mk 8 None sample_category sample_home sample_home None None None
    None (Some "") None None None.

(** The instance and its row agree, no event yet, empty log. *)
Definition env_of (m : Match.t) : Match.Env :=
  Match.mkEnv m {[ Match.id m := m ]} [] 1 [].

Definition sample_event (team : option TeamInfo.t) : MatchEvent.t :=
  MatchEvent.mk (Some 4) 7 (Some 1) None None (Some MatchEvent.TYPE_GOAL)
    (Some 0) (Some 125) None team.

(** ** Notions used to state further properties *)

(** The persisted state is unset or a key of the transition table. *)
Definition valid_state (o : option string) : bool :=
  negb (truthy o) || bool_decide (is_Some (o ≫= (Match.STATES !!.))).

(** A bound on the events a match can still get from [change_state]: five
    while its state is unset, then one less with every state of the chain. *)
Definition remaining (o : option string) : nat :=
  if negb (truthy o) then 5%nat
  else if Match.str_eqb o Match.STATE_INIT then 4%nat
  else if Match.str_eqb o Match.STATE_HALF_FIRST then 3%nat
  else if Match.str_eqb o Match.STATE_HALF_PAUSE then 2%nat
  else if Match.str_eqb o Match.STATE_HALF_SECOND then 1%nat
  else 0%nat.

(** The keys of an event snapshot. *)
Definition event_snapshot_keys : list string :=
  [ "id"; "time_offset"; "half_index"; "message"; "score"; "type";
    "team_index"; "player_name"; "player_number" ].

(** A row of another match, for tables with more than one row. *)
Definition match_other : Match.t :=
  Match.mk 9 None sample_category sample_away sample_third (Some 2) (Some 1)
    (Some sample_time) (Some 1) (Some Match.STATE_END) None None None.

(** The sample match late in its second half, at 3 to 2. *)
Definition match_scored : Match.t :=
  Match.mk 7 None sample_category sample_home sample_away (Some 3) (Some 2)
    None None (Some Match.STATE_HALF_SECOND) None None None.

(** A team with a second dress colour and no first one. *)
Definition team_no_primary : TeamInfo.t :=
  TeamInfo.mk 40 "Sternberk" None (Some "white").

(** An instance of the sample match read before its row moved on to
    [half_first]. *)
Definition env_stale : Match.Env :=
  Match.mkEnv match_init
    {[ 7 := match_half_first; 9 := match_other ]} [] 1 [].

(** * Properties *)

(** ** The transition table *)

Lemma STATES_lookup_Some (st : string) (succs : list string) :
  Match.STATES !! st = Some succs ↔
  (st, succs) ∈
    [ ("init", ["half_first"]); ("half_first", ["pause"]);
      ("pause", ["half_second"]); ("half_second", ["end"]); ("end", []) ].
Proof.
  unfold Match.STATES. rewrite <- elem_of_list_to_map; [done|].
  apply (bool_decide_unpack _). vm_compute. exact I.
Qed.

Lemma STATES_keys (st : string) :
  is_Some (Match.STATES !! st) ↔
  st ∈ ["init"; "half_first"; "pause"; "half_second"; "end"].
Proof.
  split.
  - intros [succs H%STATES_lookup_Some].
    rewrite !elem_of_cons in H. rewrite !elem_of_cons.
    destruct H as [H|[H|[H|[H|[H|H]]]]];
      [inversion H; auto 6 .. | by apply elem_of_nil in H].
  - rewrite !elem_of_cons.
    intros [->|[->|[->|[->|[->|H]]]]]; [by vm_compute; eexists .. |].
    by apply elem_of_nil in H.
Qed.

(** ** The three ways through [change_state] *)

Ltac run_change_state :=
  unfold Match.change_state, bind, Match.refresh_from_db, gets, lift, ret,
    raise, Match.logging, modify, Match.save_online_state,
    Match.MatchEvent_save, tuple_getitem.

Lemma default_state_getitem (row : Match.t) :
  Match.DEFAULT_STATES !! Nat.b2n (bool_datetime (Match.confirmed row)) =
  Some (default_state row).
Proof. unfold default_state. by destruct (Match.confirmed row). Qed.

Lemma change_state_unknown (s : Match.Env) (row : Match.t) (new_state : string) :
  stored s row →
  Match.STATES !! new_state = None →
  Match.change_state new_state s =
  (Ok None,
   after_rejection s row ("Unknown state " +:+ new_state +:+ " to set.")).
Proof.
  intros [Hrow _] Hnew. run_change_state.
  rewrite Hrow. cbn [Match.self Match.with_self].
  rewrite Hnew, bool_decide_eq_false_2 by (by intros [? ?]).
  reflexivity.
Qed.

Lemma change_state_illegal (s : Match.Env) (row : Match.t) (new_state : string) :
  stored s row →
  is_Some (Match.STATES !! new_state) →
  py_in new_state
    (Match.STATES_get (Match.online_state row) (default_state row)) = false →
  Match.change_state new_state s =
  (Ok None,
   after_rejection s row
     ("Cannot go from " +:+ format_opt (Match.online_state row) +:+
      " to " +:+ new_state +:+ ".")).
Proof.
  intros [Hrow _] Hnew Hin. run_change_state.
  rewrite Hrow. cbn [Match.self Match.with_self].
  rewrite bool_decide_eq_true_2 by done. cbn [negb].
  rewrite default_state_getitem, Hin. reflexivity.
Qed.

Lemma change_state_passed (s : Match.Env) (row : Match.t) (new_state : string) :
  stored s row →
  is_Some (Match.STATES !! new_state) →
  py_in new_state
    (Match.STATES_get (Match.online_state row) (default_state row)) = true →
  Match.change_state new_state s =
  match event_kind (Match.online_state row) with
  | Some (ty, half, offset) =>
      let ev :=
        MatchEvent.set_id (Match.event_seq s)
          (MatchEvent.stamp ty half offset (MatchEvent.new (Match.id row))) in
      let s' := after_persist s row new_state in
      (Ok (Some ev),
       Match.mkEnv (Match.self s') (Match.matches s')
         (Match.events s ++ [ev]) (Match.event_seq s + 1) (Match.log s'))
  | None =>
      (Raise (RuntimeError
                ("Never happen: " +:+ format_opt (Match.online_state row) +:+
                 " -> " +:+ new_state +:+ ".")),
       after_persist s row new_state)
  end.
Proof.
  intros [Hrow Hid] Hnew Hin. run_change_state.
  rewrite Hrow. cbn [Match.self Match.with_self].
  rewrite bool_decide_eq_true_2 by done. cbn [negb].
  rewrite default_state_getitem, Hin. cbn [negb].
  cbn [Match.self Match.with_self Match.matches Match.events Match.event_seq
       Match.log Match.set_online_state Match.id Match.online_state].
  rewrite Hid, Hrow.
  unfold event_kind, after_persist.
  cbn [Match.self Match.with_self Match.with_matches Match.matches
       Match.events Match.event_seq Match.log Match.set_online_state
       Match.id Match.online_state].
  rewrite Hid.
  destruct (negb (truthy (Match.online_state row)) ||
            Match.str_eqb (Match.online_state row) Match.STATE_INIT);
    [reflexivity|].
  destruct (Match.str_eqb (Match.online_state row) Match.STATE_HALF_FIRST);
    [reflexivity|].
  destruct (Match.str_eqb (Match.online_state row) Match.STATE_HALF_PAUSE);
    [reflexivity|].
  destruct (Match.str_eqb (Match.online_state row) Match.STATE_HALF_SECOND);
    reflexivity.
Qed.

(** The outcome of a call is one of three: rejected with the tables as
    they were, accepted with one event, or a fault after the new state was
    persisted. *)
Lemma change_state_cases (s : Match.Env) (row : Match.t) (new_state : string) :
  stored s row →
  (∃ msg, Match.change_state new_state s =
          (Ok None, after_rejection s row msg) ∧
          (Match.STATES !! new_state = None ∨
           py_in new_state
             (Match.STATES_get (Match.online_state row) (default_state row))
           = false)) ∨
  (is_Some (Match.STATES !! new_state) ∧
   py_in new_state
     (Match.STATES_get (Match.online_state row) (default_state row)) = true ∧
   ((∃ ty half offset,
       event_kind (Match.online_state row) = Some (ty, half, offset) ∧
       let ev :=
         MatchEvent.set_id (Match.event_seq s)
           (MatchEvent.stamp ty half offset (MatchEvent.new (Match.id row))) in
       let s' := after_persist s row new_state in
       Match.change_state new_state s =
       (Ok (Some ev),
        Match.mkEnv (Match.self s') (Match.matches s')
          (Match.events s ++ [ev]) (Match.event_seq s + 1) (Match.log s'))) ∨
    (event_kind (Match.online_state row) = None ∧
     Match.change_state new_state s =
     (Raise (RuntimeError
               ("Never happen: " +:+ format_opt (Match.online_state row) +:+
                " -> " +:+ new_state +:+ ".")),
      after_persist s row new_state)))).
Proof.
  intros Hs.
  destruct (Match.STATES !! new_state) as [succs|] eqn:Hnew.
  - destruct (py_in new_state
      (Match.STATES_get (Match.online_state row) (default_state row))) eqn:Hin.
    + right. split; [by eexists|]. split; [done|].
      assert (Hk : is_Some (Match.STATES !! new_state)) by (by eexists).
      pose proof (change_state_passed s row new_state Hs Hk Hin) as Hrun.
      destruct (event_kind (Match.online_state row)) as [[[ty half] offset]|].
      * left. by exists ty, half, offset.
      * by right.
    + left. eexists. split; [|by right].
      apply change_state_illegal; [done| by eexists | done].
  - left. eexists. split; [|by left]. by apply change_state_unknown.
Qed.

(** ** The two guards *)

Lemma STATES_get_stored (st : string) (succs : list string) (default : string) :
  Match.STATES !! st = Some succs →
  Match.STATES_get (Some st) default = Tuple succs.
Proof.
  intros H. unfold Match.STATES_get.
  change (Some st ≫= (Match.STATES !!.)) with (Match.STATES !! st).
  by rewrite H.
Qed.

Lemma STATES_get_outside (o : option string) (default : string) :
  o ≫= (Match.STATES !!.) = None →
  Match.STATES_get o default = Str default.
Proof. intros H. unfold Match.STATES_get. by rewrite H. Qed.

Lemma truthy_false (o : option string) :
  truthy o = false ↔ o = None ∨ o = Some "".
Proof.
  destruct o as [st|]; cbn.
  - rewrite negb_false_iff, String.eqb_eq.
    split; [intros ->; by right | by intros [[=]|[= ->]]].
  - split; [by left | done].
Qed.

Lemma unset_outside (o : option string) :
  truthy o = false → o ≫= (Match.STATES !!.) = None.
Proof. intros H. apply truthy_false in H as [->| ->]; reflexivity. Qed.

(** Against a default, which is a state name and not a tuple, the second
    guard lets through the state of that very name and no other state. *)
Lemma default_contains (row : Match.t) (new_state : string) :
  is_Some (Match.STATES !! new_state) →
  str_contains (default_state row) new_state =
  bool_decide (new_state = default_state row).
Proof.
  intros H%STATES_keys. unfold default_state.
  rewrite !elem_of_cons in H.
  destruct H as [->|[->|[->|[->|[->|H]]]]]; [..|by apply elem_of_nil in H];
    by destruct (bool_datetime (Match.confirmed row)).
Qed.

(** ** Claims about [change_state] *)

(** C4. A rejected call, whether the requested state is not a key of the
    transition table or is not allowed from the current state, returns no
    event without raising, creates no event and leaves every match row as
    it was; the in-memory instance holds the persisted record. *)
Theorem rejected_call_mutates_nothing
    (s : Match.Env) (row : Match.t) (new_state : string) :
  stored s row →
  (∀ s', Match.change_state new_state s = (Ok None, s') →
     Match.matches s' = Match.matches s ∧
     Match.events s' = Match.events s ∧
     Match.event_seq s' = Match.event_seq s ∧
     Match.self s' = row) ∧
  (Match.STATES !! new_state = None →
     ∃ s', Match.change_state new_state s = (Ok None, s')) ∧
  (∀ st succs,
     Match.online_state row = Some st →
     Match.STATES !! st = Some succs →
     new_state ∉ succs →
     ∃ s', Match.change_state new_state s = (Ok None, s')) ∧
  (Match.online_state row ≫= (Match.STATES !!.) = None →
     new_state ≠ default_state row →
     ∃ s', Match.change_state new_state s = (Ok None, s')).
Proof.
  intros Hs. split; [|split; [|split]].
  - intros s' Hrun.
    destruct (change_state_cases s row new_state Hs)
      as [(msg & Hrej & _)|(_ & _ & [(ty & half & offset & _ & Hacc)|[_ Hfault]])].
    + rewrite Hrej in Hrun. by injection Hrun as <-.
    + cbv zeta in Hacc. rewrite Hacc in Hrun. discriminate Hrun.
    + rewrite Hfault in Hrun. discriminate Hrun.
  - intros Hnew. eexists. by apply change_state_unknown.
  - intros st succs Hst Hsuccs Hnot.
    destruct (Match.STATES !! new_state) as [t|] eqn:Hnew.
    + eexists. apply change_state_illegal; [done|by eexists|].
      rewrite Hst, (STATES_get_stored _ _ _ Hsuccs). cbn.
      by apply bool_decide_eq_false_2.
    + eexists. by apply change_state_unknown.
  - intros Hout Hne.
    destruct (Match.STATES !! new_state) as [t|] eqn:Hnew.
    + eexists. apply change_state_illegal; [done|by eexists|].
      rewrite (STATES_get_outside _ _ Hout). cbn.
      rewrite default_contains by (by eexists).
      by apply bool_decide_eq_false_2.
    + eexists. by apply change_state_unknown.
Qed.

Lemma rejected_call_mutates_nothing_witness :
  ∃ s', Match.change_state Match.STATE_HALF_PAUSE (env_of match_init)
        = (Ok None, s') ∧
        Match.matches s' = Match.matches (env_of match_init) ∧
        Match.events s' = [] ∧
        Match.self s' = match_init.
Proof.
  destruct (rejected_call_mutates_nothing (env_of match_init) match_init
              Match.STATE_HALF_PAUSE (conj eq_refl eq_refl))
    as (Hframe & _ & Hillegal & _).
  destruct (Hillegal Match.STATE_INIT [Match.STATE_HALF_FIRST]
              eq_refl eq_refl) as [s' Hs'].
  { apply (bool_decide_unpack _). vm_compute. exact I. }
  exists s'. split; [exact Hs'|].
  destruct (Hframe s' Hs') as (Hm & He & _ & Hself).
  split; [exact Hm|]. split; [exact He|exact Hself].
Defined.

(** C9. An accepted call persists [online_state] and nothing else: the
    row of the match keeps every other field, and no other row changes. *)
Theorem accepted_call_persists_online_state_only
    (s s' : Match.Env) (row : Match.t) (new_state : string)
    (ev : MatchEvent.t) :
  stored s row →
  Match.change_state new_state s = (Ok (Some ev), s') →
  (∃ row',
     Match.matches s' !! Match.id row = Some row' ∧
     Match.online_state row' = Some new_state ∧
     Match.id row' = Match.id row ∧
     Match.match_term row' = Match.match_term row ∧
     Match.category row' = Match.category row ∧
     Match.home_team_info row' = Match.home_team_info row ∧
     Match.away_team_info row' = Match.away_team_info row ∧
     Match.score_home row' = Match.score_home row ∧
     Match.score_away row' = Match.score_away row ∧
     Match.confirmed row' = Match.confirmed row ∧
     Match.confirmed_as row' = Match.confirmed_as row ∧
     Match.first_half_start row' = Match.first_half_start row ∧
     Match.second_half_start row' = Match.second_half_start row ∧
     Match.facebook_video_id row' = Match.facebook_video_id row ∧
     Match.self s' = row') ∧
  (∀ k, k ≠ Match.id row → Match.matches s' !! k = Match.matches s !! k).
Proof.
  intros Hs Hrun.
  destruct (change_state_cases s row new_state Hs)
    as [(msg & Hrej & _)|(_ & _ & [(ty & half & offset & _ & Hacc)|[_ Hfault]])].
  - rewrite Hrej in Hrun. discriminate Hrun.
  - cbv zeta in Hacc. rewrite Hacc in Hrun. injection Hrun as _ <-.
    unfold after_persist. cbn [Match.matches Match.self]. split.
    + exists (Match.set_online_state (Some new_state) row).
      rewrite lookup_insert_eq. by repeat split.
    + intros k Hk. by rewrite lookup_insert_ne.
  - rewrite Hfault in Hrun. discriminate Hrun.
Qed.

Lemma accepted_call_persists_online_state_only_witness :
  ∃ ev s' row',
    Match.change_state Match.STATE_HALF_FIRST (env_of match_init)
    = (Ok (Some ev), s') ∧
    Match.matches s' !! 7 = Some row' ∧
    Match.online_state row' = Some Match.STATE_HALF_FIRST ∧
    Match.home_team_info row' = sample_home ∧
    Match.confirmed row' = None.
Proof.
  destruct (Match.change_state Match.STATE_HALF_FIRST (env_of match_init))
    as [[[ev|]|e] s'] eqn:Hrun; [|discriminate Hrun..].
  destruct (accepted_call_persists_online_state_only
              (env_of match_init) s' match_init Match.STATE_HALF_FIRST ev
              (conj eq_refl eq_refl) Hrun)
    as [(row' & Hrow' & Hst & _ & _ & _ & Hhome & _ & _ & _ & Hconf & _) _].
  exists ev, s', row'.
  split; [reflexivity|]. split; [exact Hrow'|]. split; [exact Hst|].
  split; [exact Hhome | exact Hconf].
Defined.

Lemma event_kind_None (o : option string) :
  event_kind o = None ↔
  ∃ st, o = Some st ∧
        st ∉ [""; Match.STATE_INIT; Match.STATE_HALF_FIRST;
              Match.STATE_HALF_PAUSE; Match.STATE_HALF_SECOND].
Proof.
  unfold event_kind. destruct o as [st|];
    [|split; [done|by intros (?&?&?)]].
  unfold truthy, Match.str_eqb.
  split.
  - intros H. exists st. split; [done|]. rewrite !elem_of_cons, elem_of_nil.
    destruct (String.eqb_spec st ""); [done|].
    destruct (String.eqb_spec st Match.STATE_INIT); [done|].
    destruct (String.eqb_spec st Match.STATE_HALF_FIRST); [done|].
    destruct (String.eqb_spec st Match.STATE_HALF_PAUSE); [done|].
    destruct (String.eqb_spec st Match.STATE_HALF_SECOND); [done|].
    tauto.
  - intros (st' & [= <-] & H). rewrite !elem_of_cons, elem_of_nil in H.
    destruct (String.eqb_spec st ""); [tauto|].
    destruct (String.eqb_spec st Match.STATE_INIT); [tauto|].
    destruct (String.eqb_spec st Match.STATE_HALF_FIRST); [tauto|].
    destruct (String.eqb_spec st Match.STATE_HALF_PAUSE); [tauto|].
    destruct (String.eqb_spec st Match.STATE_HALF_SECOND); [tauto|].
    reflexivity.
Qed.

(** A state of the table that has a successor is a recognised
    predecessor of the event synthesis; [end] has no successor. *)
Lemma table_state_never_faults (st new_state : string) (succs : list string) :
  Match.STATES !! st = Some succs →
  new_state ∈ succs →
  event_kind (Some st) ≠ None.
Proof.
  intros Hst%STATES_lookup_Some Hin.
  rewrite !elem_of_cons, elem_of_nil in Hst.
  destruct Hst as [[= -> ->]|[[= -> ->]|[[= -> ->]|[[= -> ->]|[[= -> ->]|[]]]]]];
    try done.
  by apply elem_of_nil in Hin.
Qed.

(** C5. A call that is not rejected although the previous state is none
    of the recognised predecessors raises [RuntimeError] and creates no
    event; the fault arises only from a stored state that is non-empty
    and outside the transition table, never from a state found in the
    table. *)
Theorem inconsistent_state_fault
    (s : Match.Env) (row : Match.t) (new_state : string) :
  stored s row →
  (∀ st r s',
     Match.online_state row = Some st →
     st ∉ [""; Match.STATE_INIT; Match.STATE_HALF_FIRST;
           Match.STATE_HALF_PAUSE; Match.STATE_HALF_SECOND] →
     Match.change_state new_state s = (r, s') →
     r ≠ Ok None →
     r = Raise (RuntimeError
                  ("Never happen: " +:+ st +:+ " -> " +:+ new_state +:+ ".")) ∧
     Match.events s' = Match.events s ∧
     Match.event_seq s' = Match.event_seq s) ∧
  (∀ e s',
     Match.change_state new_state s = (Raise e, s') →
     ∃ st, Match.online_state row = Some st ∧ st ≠ "" ∧
           Match.STATES !! st = None) ∧
  (is_Some (Match.online_state row ≫= (Match.STATES !!.)) →
     ∀ e s', Match.change_state new_state s ≠ (Raise e, s')).
Proof.
  intros Hs.
  assert (Honly : ∀ e s',
     Match.change_state new_state s = (Raise e, s') →
     ∃ st, Match.online_state row = Some st ∧ st ≠ "" ∧
           Match.STATES !! st = None).
  { intros e s' Hrun.
    destruct (change_state_cases s row new_state Hs)
      as [(msg & Hrej & _)|(_ & Hin & [(ty & half & offset & _ & Hacc)|[Hk _]])].
    - rewrite Hrej in Hrun. discriminate Hrun.
    - cbv zeta in Hacc. rewrite Hacc in Hrun. discriminate Hrun.
    - apply event_kind_None in Hk as (st & Hst & Hnot).
      exists st. split; [done|]. split.
      + intros ->. apply Hnot. by left.
      + destruct (Match.STATES !! st) as [succs|] eqn:Htab; [|done].
        exfalso. rewrite Hst, (STATES_get_stored _ _ _ Htab) in Hin.
        cbn in Hin. apply bool_decide_eq_true_1 in Hin.
        apply (table_state_never_faults _ _ _ Htab Hin).
        apply event_kind_None. by exists st. }
  split; [|split; [exact Honly|]].
  - intros st r s' Hst Hnot Hrun Hr.
    destruct (change_state_cases s row new_state Hs)
      as [(msg & Hrej & _)|(_ & _ & [(ty & half & offset & Hk & _)|[_ Hfault]])].
    + rewrite Hrej in Hrun. by injection Hrun as <- _.
    + assert (event_kind (Match.online_state row) = None) as Hnone
        by (apply event_kind_None; by exists st).
      rewrite Hnone in Hk. discriminate Hk.
    + rewrite Hfault in Hrun. injection Hrun as <- <-.
      by rewrite Hst.
  - intros [succs Hsuccs] e s' Hrun.
    destruct (Honly e s' Hrun) as (st & Hst & _ & Hnone).
    rewrite Hst in Hsuccs.
    change (Some st ≫= (Match.STATES !!.)) with (Match.STATES !! st) in Hsuccs.
    rewrite Hnone in Hsuccs. discriminate Hsuccs.
Qed.

Lemma inconsistent_state_fault_witness :
  ∃ s', Match.change_state Match.STATE_INIT (env_of match_corrupt)
        = (Raise (RuntimeError "Never happen: overtime -> init."), s') ∧
        Match.events s' = [] ∧
        Match.online_state match_corrupt = Some "overtime" ∧
        Match.STATES !! "overtime" = None.
Proof.
  destruct (inconsistent_state_fault (env_of match_corrupt) match_corrupt
              Match.STATE_INIT (conj eq_refl eq_refl))
    as (Hfault & _ & _).
  destruct (Match.change_state Match.STATE_INIT (env_of match_corrupt))
    as [r s'] eqn:Hrun.
  destruct (Hfault "overtime" r s' eq_refl) as (Hr & Hev & _).
  - apply (bool_decide_unpack _). vm_compute. exact I.
  - reflexivity.
  - injection Hrun as <- _. discriminate.
  - exists s'. rewrite Hr. split; [reflexivity|].
    split; [exact Hev|]. split; reflexivity.
Defined.

(** ** Calls on a match whose state column is unset *)

Lemma unset_guard (row : Match.t) (new_state : string) :
  truthy (Match.online_state row) = false →
  is_Some (Match.STATES !! new_state) →
  py_in new_state
    (Match.STATES_get (Match.online_state row) (default_state row)) =
  bool_decide (new_state = default_state row).
Proof.
  intros Hunset Hnew.
  rewrite (STATES_get_outside _ _ (unset_outside _ Hunset)). cbn.
  by apply default_contains.
Qed.

Lemma unset_event_kind (o : option string) :
  truthy o = false → event_kind o = Some (MatchEvent.TYPE_START, 0, 0).
Proof. intros H. unfold event_kind. by rewrite H. Qed.

(** A call on an unset match that asks for the default state itself is
    accepted and yields the kickoff event of the first half. *)
Lemma unset_accepts_default (s : Match.Env) (row : Match.t) :
  stored s row →
  truthy (Match.online_state row) = false →
  ∃ ev s',
    Match.change_state (default_state row) s = (Ok (Some ev), s') ∧
    event_triple ev = (Some MatchEvent.TYPE_START, Some 0, Some 0) ∧
    persisted_state s' = Some (Some (default_state row)) ∧
    Match.events s' = (Match.events s ++ [ev])%list.
Proof.
  intros Hs Hunset.
  assert (Hkey : is_Some (Match.STATES !! default_state row)).
  { unfold default_state.
    destruct (bool_datetime (Match.confirmed row)); by vm_compute; eexists. }
  pose proof (change_state_passed s row (default_state row) Hs Hkey) as Hrun.
  rewrite (unset_guard _ _ Hunset Hkey), bool_decide_eq_true_2 in Hrun by done.
  specialize (Hrun eq_refl).
  rewrite (unset_event_kind _ Hunset) in Hrun. cbv zeta in Hrun.
  eexists _, _. split; [exact Hrun|].
  split; [reflexivity|]. split; [|reflexivity].
  unfold persisted_state, after_persist. cbn [Match.matches Match.self].
  cbn [Match.id Match.set_online_state].
  by rewrite lookup_insert_eq.
Qed.

(** C10. On a match with no online state and no confirmation the call
    [change_state('init')] is accepted: it persists [online_state = 'init']
    and creates a start event with half index 0 and time offset 0; the
    lookup in the table falls back to the default state name, a string,
    and the guard tests the requested state against that string. *)
Theorem unset_unconfirmed_accepts_init (s : Match.Env) (row : Match.t) :
  stored s row →
  truthy (Match.online_state row) = false →
  Match.confirmed row = None →
  Match.STATES_get (Match.online_state row) (default_state row)
  = Str Match.STATE_INIT ∧
  ∃ ev s',
    Match.change_state Match.STATE_INIT s = (Ok (Some ev), s') ∧
    event_triple ev = (Some MatchEvent.TYPE_START, Some 0, Some 0) ∧
    persisted_state s' = Some (Some Match.STATE_INIT) ∧
    Match.events s' = (Match.events s ++ [ev])%list.
Proof.
  intros Hs Hunset Hconf.
  assert (Hd : default_state row = Match.STATE_INIT)
    by (unfold default_state; by rewrite Hconf).
  split.
  - by rewrite (STATES_get_outside _ _ (unset_outside _ Hunset)), Hd.
  - rewrite <- Hd. by apply unset_accepts_default.
Qed.

Lemma unset_unconfirmed_accepts_init_witness :
  ∃ ev s',
    Match.change_state "init" (env_of match_unset) = (Ok (Some ev), s') ∧
    event_triple ev = (Some "start", Some 0, Some 0) ∧
    persisted_state s' = Some (Some "init") ∧
    Match.events s' = [ev].
Proof.
  exact (proj2 (unset_unconfirmed_accepts_init (env_of match_unset) match_unset
                  (conj eq_refl eq_refl) eq_refl eq_refl)).
Defined.

(** C2 is violated: on every match with no online state and no
    confirmation the call for [half_first] is rejected, and the one
    accepted target is [init]. *)
Theorem unset_unconfirmed_rejects_half_first (s : Match.Env) (row : Match.t) :
  stored s row →
  truthy (Match.online_state row) = false →
  Match.confirmed row = None →
  (∃ s', Match.change_state Match.STATE_HALF_FIRST s = (Ok None, s') ∧
         Match.matches s' = Match.matches s ∧
         Match.events s' = Match.events s) ∧
  (∀ new_state ev s',
     Match.change_state new_state s = (Ok (Some ev), s') →
     new_state = Match.STATE_INIT).
Proof.
  intros Hs Hunset Hconf.
  assert (Hd : default_state row = Match.STATE_INIT)
    by (unfold default_state; by rewrite Hconf).
  split.
  - eexists. split; [|split].
    + apply change_state_illegal; [done|by vm_compute; eexists|].
      rewrite unset_guard by (done || by vm_compute; eexists).
      by rewrite Hd.
    + reflexivity.
    + reflexivity.
  - intros new_state ev s' Hrun.
    destruct (change_state_cases s row new_state Hs)
      as [(msg & Hrej & _)|(Hkey & Hin & _)].
    + rewrite Hrej in Hrun. discriminate Hrun.
    + rewrite (unset_guard _ _ Hunset Hkey), Hd in Hin.
      by apply bool_decide_eq_true_1 in Hin.
Qed.

Lemma unset_unconfirmed_rejects_half_first_witness :
  ∃ s', Match.change_state "half_first" (env_of match_unset) = (Ok None, s') ∧
        Match.matches s' = Match.matches (env_of match_unset) ∧
        Match.events s' = [].
Proof.
  exact (proj1 (unset_unconfirmed_rejects_half_first
                  (env_of match_unset) match_unset
                  (conj eq_refl eq_refl) eq_refl eq_refl)).
Defined.

(** C3 is violated: on every confirmed match with no online state the
    call for [end] is accepted; it persists [online_state = 'end'] and
    creates a start event of the first half. *)
Theorem unset_confirmed_accepts_end
    (s : Match.Env) (row : Match.t) (when : datetime) :
  stored s row →
  truthy (Match.online_state row) = false →
  Match.confirmed row = Some when →
  ∃ ev s',
    Match.change_state Match.STATE_END s = (Ok (Some ev), s') ∧
    event_triple ev = (Some MatchEvent.TYPE_START, Some 0, Some 0) ∧
    persisted_state s' = Some (Some Match.STATE_END) ∧
    Match.events s' = (Match.events s ++ [ev])%list.
Proof.
  intros Hs Hunset Hconf.
  assert (Hd : default_state row = Match.STATE_END)
    by (unfold default_state; by rewrite Hconf).
  rewrite <- Hd. by apply unset_accepts_default.
Qed.

Lemma unset_confirmed_accepts_end_witness :
  ∃ ev s',
    Match.change_state "end" (env_of match_unset_confirmed)
    = (Ok (Some ev), s') ∧
    event_triple ev = (Some "start", Some 0, Some 0) ∧
    persisted_state s' = Some (Some "end") ∧
    Match.events s' = [ev].
Proof.
  exact (unset_confirmed_accepts_end (env_of match_unset_confirmed)
           match_unset_confirmed sample_time
           (conj eq_refl eq_refl) eq_refl eq_refl).
Defined.

(** ** The chain of transitions *)

(** One accepted step from a state of the table to its successor. *)
Lemma table_step (s : Match.Env) (row : Match.t) (st new_state ty : string)
    (half offset : Z) :
  stored s row →
  Match.online_state row = Some st →
  Match.STATES !! st = Some [new_state] →
  event_kind (Some st) = Some (ty, half, offset) →
  ∃ ev s',
    Match.change_state new_state s = (Ok (Some ev), s') ∧
    event_triple ev = (Some ty, Some half, Some offset) ∧
    Match.events s' = (Match.events s ++ [ev])%list ∧
    persisted_state s' = Some (Some new_state) ∧
    stored s' (Match.set_online_state (Some new_state) row).
Proof.
  intros Hs Hst Htab Hkind.
  assert (Hkey : is_Some (Match.STATES !! new_state)).
  { apply STATES_lookup_Some in Htab. rewrite !elem_of_cons, elem_of_nil in Htab.
    destruct Htab as [[= -> ->]|[[= -> ->]|[[= -> ->]|[[= -> ->]|[[=]|[]]]]]];
      by vm_compute; eexists. }
  pose proof (change_state_passed s row new_state Hs Hkey) as Hrun.
  rewrite Hst, (STATES_get_stored _ _ _ Htab), Hkind in Hrun.
  cbv zeta in Hrun.
  specialize (Hrun (bool_decide_eq_true_2 _ (list_elem_of_here _ _))).
  destruct Hs as [Hrow Hid].
  eexists _, _. split; [exact Hrun|].
  unfold persisted_state, stored, after_persist.
  cbn [Match.matches Match.self Match.events Match.id Match.set_online_state].
  rewrite lookup_insert_eq. by repeat split.
Qed.

(** Once the persisted state is [end], every call is rejected. *)
Lemma end_is_terminal (s : Match.Env) (row : Match.t) (target : string) :
  stored s row →
  Match.online_state row = Some Match.STATE_END →
  ∃ s', Match.change_state target s = (Ok None, s') ∧
        Match.matches s' = Match.matches s ∧
        Match.events s' = Match.events s.
Proof.
  intros Hs Hst.
  destruct (Match.STATES !! target) as [t|] eqn:Hkey.
  - eexists. split; [|split].
    + apply change_state_illegal; [done|by eexists|].
      by rewrite Hst.
    + reflexivity.
    + reflexivity.
  - eexists. split; [|split].
    + by apply change_state_unknown.
    + reflexivity.
    + reflexivity.
Qed.

(** The four accepted steps from a persisted [init], and the rejection of
    whatever is asked for afterwards. *)
Lemma chain_run (s : Match.Env) (row : Match.t) :
  stored s row →
  Match.online_state row = Some Match.STATE_INIT →
  ∃ e1 e2 e3 e4 s',
    drive [Match.STATE_HALF_FIRST; Match.STATE_HALF_PAUSE;
           Match.STATE_HALF_SECOND; Match.STATE_END] s
    = (Ok [ (Some e1, Some (Some Match.STATE_HALF_FIRST));
            (Some e2, Some (Some Match.STATE_HALF_PAUSE));
            (Some e3, Some (Some Match.STATE_HALF_SECOND));
            (Some e4, Some (Some Match.STATE_END)) ], s') ∧
    event_triple e1 = (Some MatchEvent.TYPE_START, Some 0, Some 0) ∧
    event_triple e2 = (Some MatchEvent.TYPE_END, Some 0, Some 600) ∧
    event_triple e3 = (Some MatchEvent.TYPE_START, Some 1, Some 0) ∧
    event_triple e4 = (Some MatchEvent.TYPE_END, Some 1, Some 600) ∧
    Match.events s' = (Match.events s ++ [e1; e2; e3; e4])%list ∧
    ∀ target,
      ∃ s'', Match.change_state target s' = (Ok None, s'') ∧
             Match.matches s'' = Match.matches s' ∧
             Match.events s'' = Match.events s'.
Proof.
  intros Hs Hst.
  destruct (table_step s row _ _ _ _ _ Hs Hst eq_refl eq_refl)
    as (e1 & s1 & Hrun1 & Ht1 & Hev1 & Hp1 & Hs1).
  destruct (table_step s1 _ _ _ _ _ _ Hs1 eq_refl eq_refl eq_refl)
    as (e2 & s2 & Hrun2 & Ht2 & Hev2 & Hp2 & Hs2).
  destruct (table_step s2 _ _ _ _ _ _ Hs2 eq_refl eq_refl eq_refl)
    as (e3 & s3 & Hrun3 & Ht3 & Hev3 & Hp3 & Hs3).
  destruct (table_step s3 _ _ _ _ _ _ Hs3 eq_refl eq_refl eq_refl)
    as (e4 & s4 & Hrun4 & Ht4 & Hev4 & Hp4 & Hs4).
  exists e1, e2, e3, e4, s4. repeat split; try done.
  - unfold drive, bind, gets, ret.
    by rewrite Hrun1, Hp1, Hrun2, Hp2, Hrun3, Hp3, Hrun4, Hp4.
  - by rewrite Hev4, Hev3, Hev2, Hev1, <- !app_assoc.
  - intros target. by apply (end_is_terminal _ _ _ Hs4).
Qed.

(** An accepted call persists the requested state and appends one event,
    whose type, half index and time offset are those [event_kind] gives
    for the previous state. *)
Lemma accepted_event (s s' : Match.Env) (row : Match.t) (new_state : string)
    (ev : MatchEvent.t) :
  stored s row →
  Match.change_state new_state s = (Ok (Some ev), s') →
  persisted_state s' = Some (Some new_state) ∧
  Match.events s' = (Match.events s ++ [ev])%list ∧
  ∃ ty half offset,
    event_kind (Match.online_state row) = Some (ty, half, offset) ∧
    event_triple ev = (Some ty, Some half, Some offset).
Proof.
  intros Hs Hrun.
  destruct (change_state_cases s row new_state Hs)
    as [(msg & Hrej & _)|(_ & _ & [(ty & half & offset & Hk & Hacc)|[_ Hfault]])].
  - rewrite Hrej in Hrun. discriminate Hrun.
  - cbv zeta in Hacc. rewrite Hacc in Hrun. injection Hrun as <- <-.
    split; [|split; [reflexivity|by exists ty, half, offset]].
    unfold persisted_state, after_persist.
    cbn [Match.matches Match.self Match.id Match.set_online_state].
    by rewrite lookup_insert_eq.
  - rewrite Hfault in Hrun. discriminate Hrun.
Qed.

(** C1, as the code has it. Every accepted call persists the requested
    state and creates the one event keyed off the previous persisted
    state: (start,0,0) after an empty state or [init], (end,0,600) after
    [half_first], (start,1,0) after [pause], (end,1,600) after
    [half_second]. From a match whose persisted state is [init], the calls
    for [half_first], [pause], [half_second], [end] are accepted in turn
    and create exactly these four events in this order; after that every
    call, whatever state it asks for, is rejected. *)
Theorem chain_from_init (s : Match.Env) (row : Match.t) :
  stored s row →
  (∀ new_state ev s',
     Match.change_state new_state s = (Ok (Some ev), s') →
     persisted_state s' = Some (Some new_state) ∧
     Match.events s' = (Match.events s ++ [ev])%list ∧
     (truthy (Match.online_state row) = false ∨
      Match.online_state row = Some Match.STATE_INIT →
      event_triple ev = (Some MatchEvent.TYPE_START, Some 0, Some 0)) ∧
     (Match.online_state row = Some Match.STATE_HALF_FIRST →
      event_triple ev = (Some MatchEvent.TYPE_END, Some 0, Some 600)) ∧
     (Match.online_state row = Some Match.STATE_HALF_PAUSE →
      event_triple ev = (Some MatchEvent.TYPE_START, Some 1, Some 0)) ∧
     (Match.online_state row = Some Match.STATE_HALF_SECOND →
      event_triple ev = (Some MatchEvent.TYPE_END, Some 1, Some 600))) ∧
  (Match.online_state row = Some Match.STATE_INIT →
   ∃ e1 e2 e3 e4 s',
     drive [Match.STATE_HALF_FIRST; Match.STATE_HALF_PAUSE;
            Match.STATE_HALF_SECOND; Match.STATE_END] s
     = (Ok [ (Some e1, Some (Some Match.STATE_HALF_FIRST));
             (Some e2, Some (Some Match.STATE_HALF_PAUSE));
             (Some e3, Some (Some Match.STATE_HALF_SECOND));
             (Some e4, Some (Some Match.STATE_END)) ], s') ∧
     event_triple e1 = (Some MatchEvent.TYPE_START, Some 0, Some 0) ∧
     event_triple e2 = (Some MatchEvent.TYPE_END, Some 0, Some 600) ∧
     event_triple e3 = (Some MatchEvent.TYPE_START, Some 1, Some 0) ∧
     event_triple e4 = (Some MatchEvent.TYPE_END, Some 1, Some 600) ∧
     Match.events s' = (Match.events s ++ [e1; e2; e3; e4])%list ∧
     ∀ target,
       ∃ s'', Match.change_state target s' = (Ok None, s'') ∧
              Match.matches s'' = Match.matches s' ∧
              Match.events s'' = Match.events s').
Proof.
  intros Hs. split; [|by apply chain_run].
  intros new_state ev s' Hrun.
  destruct (accepted_event s s' row new_state ev Hs Hrun)
    as (Hp & Hev & ty & half & offset & Hk & Ht).
  split; [exact Hp|]. split; [exact Hev|]. rewrite Ht.
  split; [|split; [|split]].
  - intros [Hunset|Hst].
    + rewrite (unset_event_kind _ Hunset) in Hk. by injection Hk as <- <- <-.
    + rewrite Hst in Hk. by injection Hk as <- <- <-.
  - intros Hst. rewrite Hst in Hk. by injection Hk as <- <- <-.
  - intros Hst. rewrite Hst in Hk. by injection Hk as <- <- <-.
  - intros Hst. rewrite Hst in Hk. by injection Hk as <- <- <-.
Qed.

Lemma chain_from_init_witness :
  ∃ e1 e2 e3 e4 s',
    drive ["half_first"; "pause"; "half_second"; "end"] (env_of match_init)
    = (Ok [ (Some e1, Some (Some "half_first"));
            (Some e2, Some (Some "pause"));
            (Some e3, Some (Some "half_second"));
            (Some e4, Some (Some "end")) ], s') ∧
    event_triple e1 = (Some "start", Some 0, Some 0) ∧
    event_triple e2 = (Some "end", Some 0, Some 600) ∧
    event_triple e3 = (Some "start", Some 1, Some 0) ∧
    event_triple e4 = (Some "end", Some 1, Some 600) ∧
    Match.events s' = [e1; e2; e3; e4] ∧
    ∀ target,
      ∃ s'', Match.change_state target s' = (Ok None, s'') ∧
             Match.matches s'' = Match.matches s' ∧
             Match.events s'' = Match.events s'.
Proof.
  exact (proj2 (chain_from_init (env_of match_init) match_init
                  (conj eq_refl eq_refl)) eq_refl).
Defined.

(** C1 fails on a match that was never started (no online state, no
    confirmation), whose effective state is [init]: the four calls of the
    chain are all rejected and create no event; and when the calls start
    with [init], the one state such a match accepts, five events are
    created, the kickoff of the first half twice. Besides, the state after
    [half_first] is named [pause]: a call for [half_pause] is rejected. *)
Lemma chain_from_unset_counterexample :
  (∃ s',
     Match.change_state "half_pause" (env_of match_half_first)
     = (Ok None, s') ∧
     Match.events s' = []) ∧
  (∃ s',
     drive [Match.STATE_HALF_FIRST; Match.STATE_HALF_PAUSE;
            Match.STATE_HALF_SECOND; Match.STATE_END] (env_of match_unset)
     = (Ok [ (None, Some (Some "")); (None, Some (Some ""));
             (None, Some (Some "")); (None, Some (Some "")) ], s') ∧
     Match.events s' = []) ∧
  (∃ rs s',
     drive [Match.STATE_INIT; Match.STATE_HALF_FIRST; Match.STATE_HALF_PAUSE;
            Match.STATE_HALF_SECOND; Match.STATE_END] (env_of match_unset)
     = (Ok rs, s') ∧
     event_triple <$> Match.events s' =
     [ (Some "start", Some 0, Some 0); (Some "start", Some 0, Some 0);
       (Some "end", Some 0, Some 600); (Some "start", Some 1, Some 0);
       (Some "end", Some 1, Some 600) ]).
Proof.
  split; [|split].
  - eexists. split; [vm_compute; reflexivity|]. reflexivity.
  - eexists. split; [vm_compute; reflexivity|]. reflexivity.
  - eexists _, _. split; [vm_compute; reflexivity|]. reflexivity.
Qed.

(** ** The serializers *)

Lemma snapshot_fields_keys (m : Match.t) :
  (Match.snapshot_fields m).*1 = snapshot_keys.
Proof. reflexivity. Qed.

Lemma snapshot_keys_NoDup : NoDup snapshot_keys.
Proof. apply (bool_decide_unpack _). vm_compute. exact I. Qed.

Lemma dict_call_ok (explicit : list (string * PyVal))
    (kwargs : gmap string PyVal) :
  (∀ k, k ∈ explicit.*1 → kwargs !! k = None) →
  dict_call explicit kwargs = Ok (list_to_map explicit ∪ kwargs).
Proof.
  intros Hfree. unfold dict_call.
  rewrite bool_decide_eq_false_2; [done|].
  intros ([k v] & Hin & Hsome)%Exists_exists. cbn in Hsome.
  rewrite (Hfree k) in Hsome; [by destruct Hsome|].
  apply list_elem_of_fmap. by exists (k, v).
Qed.

Lemma dict_call_collision (explicit : list (string * PyVal))
    (kwargs : gmap string PyVal) (k : string) :
  k ∈ explicit.*1 → is_Some (kwargs !! k) →
  dict_call explicit kwargs = Raise TypeError.
Proof.
  intros ([k' v] & -> & Hin)%list_elem_of_fmap Hsome. unfold dict_call.
  rewrite bool_decide_eq_true_2; [done|].
  apply Exists_exists. by exists (k', v).
Qed.

Lemma serialize_ok (m : Match.t) (kwargs : gmap string PyVal) :
  (∀ k, k ∈ snapshot_keys → kwargs !! k = None) →
  Match.serialize m kwargs =
  Ok (list_to_map (Match.snapshot_fields m) ∪ kwargs).
Proof.
  intros Hfree. apply dict_call_ok. by rewrite snapshot_fields_keys.
Qed.

Lemma snapshot_field_lookup (m : Match.t) (kwargs : gmap string PyVal)
    (k : string) (v : PyVal) :
  (k, v) ∈ Match.snapshot_fields m →
  (list_to_map (Match.snapshot_fields m) ∪ kwargs) !! k = Some v.
Proof.
  intros Hin. apply lookup_union_Some_l, elem_of_list_to_map_1; [|done].
  rewrite snapshot_fields_keys. apply snapshot_keys_NoDup.
Qed.

(** C6, as the code has it. When no extra field is named like a key of
    the fixed snapshot shape or like the parameter [self], the snapshot
    has exactly the fixed keys and the extra ones, the fixed keys with the
    values of the match and the extra ones with the caller's values; when
    an extra field is named like a fixed key or [self], the call raises
    [TypeError] and yields no snapshot. *)
Theorem snapshot_merges_extra_fields
    (m : Match.t) (keywords : gmap string PyVal) :
  ((∀ k, k ∈ "self" :: snapshot_keys → keywords !! k = None) →
   ∃ snap,
     Match.serialize_call m keywords = Ok snap ∧
     dom snap = list_to_set snapshot_keys ∪ dom keywords ∧
     (∀ k v, (k, v) ∈ Match.snapshot_fields m → snap !! k = Some v) ∧
     (∀ k v, keywords !! k = Some v → snap !! k = Some v)) ∧
  (∀ k, k ∈ "self" :: snapshot_keys → is_Some (keywords !! k) →
     Match.serialize_call m keywords = Raise TypeError).
Proof.
  split.
  - intros Hfree.
    assert (Hkeys : ∀ k, k ∈ snapshot_keys → keywords !! k = None)
      by (intros k Hk; apply Hfree; by right).
    unfold Match.serialize_call.
    rewrite bool_decide_eq_false_2
      by (rewrite (Hfree "self") by (by left); by intros [? ?]).
    eexists. split; [by apply serialize_ok|]. split; [|split].
    + by rewrite dom_union_L, dom_list_to_map_L, snapshot_fields_keys.
    + intros k v. apply snapshot_field_lookup.
    + intros k v Hk. rewrite lookup_union_r; [done|].
      apply not_elem_of_list_to_map_1. rewrite snapshot_fields_keys.
      intros Hin. rewrite (Hkeys k Hin) in Hk. discriminate Hk.
  - intros k Hin Hsome. unfold Match.serialize_call.
    case_bool_decide as Hself; [done|].
    apply elem_of_cons in Hin as [->|Hin]; [done|].
    apply (dict_call_collision _ _ k); [|done].
    by rewrite snapshot_fields_keys.
Qed.

Lemma snapshot_merges_extra_fields_witness :
  (∃ snap,
     Match.serialize_call match_init {[ "viewers" := PyInt 12 ]} = Ok snap ∧
     snap !! "viewers" = Some (PyInt 12) ∧
     snap !! "id" = Some (PyInt 7)) ∧
  Match.serialize_call match_init {[ "id" := PyInt 99 ]} = Raise TypeError ∧
  Match.serialize_call match_init {[ "self" := PyInt 1 ]} = Raise TypeError.
Proof.
  split; [|split].
  - destruct (proj1 (snapshot_merges_extra_fields match_init
                       {[ "viewers" := PyInt 12 ]}))
      as (snap & Hrun & _ & Hfixed & Hextra).
    { intros k Hk. apply lookup_singleton_ne. intros <-.
      revert Hk. apply (bool_decide_unpack _). vm_compute. exact I. }
    exists snap. split; [exact Hrun|]. split.
    + apply Hextra, lookup_singleton_eq.
    + apply Hfixed. apply (list_elem_of_lookup_2 _ 0). reflexivity.
  - apply (proj2 (snapshot_merges_extra_fields match_init
                    {[ "id" := PyInt 99 ]}) "id").
    + apply (list_elem_of_lookup_2 _ 1). reflexivity.
    + exists (PyInt 99). apply lookup_singleton_eq.
  - apply (proj2 (snapshot_merges_extra_fields match_init
                    {[ "self" := PyInt 1 ]}) "self").
    + apply (list_elem_of_lookup_2 _ 0). reflexivity.
    + exists (PyInt 1). apply lookup_singleton_eq.
Defined.

(** C6 fails as stated: an extra field named like a fixed key does not
    take precedence, the call raises and there is no snapshot. *)
Lemma snapshot_key_collision_counterexample :
  ¬ ∃ snap,
      Match.serialize_call match_init {[ "state" := PyStr "live" ]} = Ok snap ∧
      snap !! "state" = Some (PyStr "live").
Proof.
  intros (snap & Hrun & _).
  assert (Hraise :
    Match.serialize_call match_init {[ "state" := PyStr "live" ]}
    = Raise TypeError).
  { unfold Match.serialize_call.
    rewrite bool_decide_eq_false_2
      by (rewrite lookup_singleton_ne by discriminate; by intros [? ?]).
    apply (dict_call_collision _ _ "state").
    - apply (list_elem_of_lookup_2 _ 15). reflexivity.
    - exists (PyStr "live"). apply lookup_singleton_eq. }
  rewrite Hraise in Hrun. discriminate Hrun.
Qed.

(** C7. The [state] key of the match snapshot is the online state when
    that is non-empty, otherwise [end] for a confirmed match and [init]
    for an unconfirmed one. *)
Theorem snapshot_state (m : Match.t) (kwargs : gmap string PyVal) :
  (∀ k, k ∈ snapshot_keys → kwargs !! k = None) →
  ∃ snap,
    Match.serialize m kwargs = Ok snap ∧
    (∀ st, Match.online_state m = Some st → st ≠ "" →
       snap !! "state" = Some (PyStr st)) ∧
    (truthy (Match.online_state m) = false →
     ∀ when, Match.confirmed m = Some when →
       snap !! "state" = Some (PyStr Match.STATE_END)) ∧
    (truthy (Match.online_state m) = false →
     Match.confirmed m = None →
       snap !! "state" = Some (PyStr Match.STATE_INIT)).
Proof.
  intros Hfree. eexists. split; [by apply serialize_ok|].
  assert (Hstate :
    (list_to_map (Match.snapshot_fields m) ∪ kwargs) !! "state" =
    Some (PyStr (Match.or_else (Match.online_state m)
                   (if bool_datetime (Match.confirmed m)
                    then Match.STATE_END else Match.STATE_INIT)))).
  { apply snapshot_field_lookup, (list_elem_of_lookup_2 _ 15). reflexivity. }
  rewrite Hstate. split; [|split].
  - intros st -> Hne. unfold Match.or_else, truthy.
    by destruct (String.eqb_spec st "").
  - intros Hunset when ->. unfold Match.or_else.
    destruct (Match.online_state m); [by rewrite Hunset | done].
  - intros Hunset ->. unfold Match.or_else.
    destruct (Match.online_state m); [by rewrite Hunset | done].
Qed.

Lemma snapshot_state_witness :
  (∃ snap, Match.serialize match_unset ∅ = Ok snap ∧
           snap !! "state" = Some (PyStr "init")) ∧
  (∃ snap, Match.serialize match_unset_confirmed ∅ = Ok snap ∧
           snap !! "state" = Some (PyStr "end")) ∧
  (∃ snap, Match.serialize match_corrupt ∅ = Ok snap ∧
           snap !! "state" = Some (PyStr "overtime")).
Proof.
  split; [|split].
  - destruct (snapshot_state match_unset ∅ (λ k _, lookup_empty k))
      as (snap & Hrun & _ & _ & Hinit).
    exists snap. split; [exact Hrun|]. by apply Hinit.
  - destruct (snapshot_state match_unset_confirmed ∅ (λ k _, lookup_empty k))
      as (snap & Hrun & _ & Hend & _).
    exists snap. split; [exact Hrun|]. by apply (Hend eq_refl sample_time).
  - destruct (snapshot_state match_corrupt ∅ (λ k _, lookup_empty k))
      as (snap & Hrun & Hst & _ & _).
    exists snap. split; [exact Hrun|]. by apply Hst.
Defined.

Lemma event_serialize_ok (e : MatchEvent.t) (teams : list TeamInfo.t) (i : Z) :
  match tuple_index MatchEvent.team_eqb teams (MatchEvent.team_info e) with
  | Ok j => j
  | Raise _ => -1
  end = i →
  (∀ x, tuple_index MatchEvent.team_eqb teams (MatchEvent.team_info e)
        = Raise x → x = ValueError) →
  ∃ snap, MatchEvent.serialize e teams = Ok snap ∧
          snap !! "team_index" = Some (PyInt i).
Proof.
  intros Hi Hval. unfold MatchEvent.serialize.
  destruct (tuple_index MatchEvent.team_eqb teams (MatchEvent.team_info e))
    as [j|x] eqn:Hidx.
  - subst i. rewrite dict_call_ok by (intros; apply lookup_empty).
    eexists. split; [reflexivity|].
    apply lookup_union_Some_l, elem_of_list_to_map_1.
    + apply (bool_decide_unpack _). vm_compute. exact I.
    + apply (list_elem_of_lookup_2 _ 6). reflexivity.
  - rewrite (Hval x eq_refl). subst i.
    rewrite dict_call_ok by (intros; apply lookup_empty).
    eexists. split; [reflexivity|].
    apply lookup_union_Some_l, elem_of_list_to_map_1.
    + apply (bool_decide_unpack _). vm_compute. exact I.
    + apply (list_elem_of_lookup_2 _ 6). reflexivity.
Qed.

Lemma tuple_index_raises {A B : Type} (eqb : A → B → bool)
    (t : list A) (x : B) (err : exn) :
  tuple_index eqb t x = Raise err → err = ValueError.
Proof.
  revert err. induction t as [|a t IH]; intros err; cbn.
  - by intros [= <-].
  - destruct (eqb a x); [done|].
    destruct (tuple_index eqb t x); [done|].
    intros [= <-]. by apply IH.
Qed.

(** C8. The event snapshot is always produced, and its [team_index] is 0
    when the event's team is the home team of the match, 1 when it is the
    away team, and -1 when the event has no team or a team that is
    neither. The index is that of the first position holding the team, so
    the away case is the one where the team is not the home team as well. *)
Theorem event_team_index (e : MatchEvent.t) (m : Match.t) :
  ∃ snap i,
    MatchEvent.serialize e (Match.teams m) = Ok snap ∧
    snap !! "team_index" = Some (PyInt i) ∧
    (∀ t, MatchEvent.team_info e = Some t →
          TeamInfo.id t = TeamInfo.id (Match.home_team_info m) → i = 0) ∧
    (∀ t, MatchEvent.team_info e = Some t →
          TeamInfo.id t ≠ TeamInfo.id (Match.home_team_info m) →
          TeamInfo.id t = TeamInfo.id (Match.away_team_info m) → i = 1) ∧
    (MatchEvent.team_info e = None → i = -1) ∧
    (∀ t, MatchEvent.team_info e = Some t →
          TeamInfo.id t ≠ TeamInfo.id (Match.home_team_info m) →
          TeamInfo.id t ≠ TeamInfo.id (Match.away_team_info m) → i = -1).
Proof.
  destruct (event_serialize_ok e (Match.teams m) _ eq_refl
              (tuple_index_raises _ _ _)) as (snap & Hrun & Hidx).
  eexists snap, _. split; [exact Hrun|]. split; [exact Hidx|].
  unfold Match.teams, tuple_index, MatchEvent.team_eqb, TeamInfo.eqb.
  destruct (MatchEvent.team_info e) as [t|].
  - destruct (Z.eqb_spec (TeamInfo.id (Match.home_team_info m)) (TeamInfo.id t));
      [|destruct (Z.eqb_spec (TeamInfo.id (Match.away_team_info m))
                             (TeamInfo.id t))];
      repeat split; try done; intros t' [= <-]; congruence.
  - repeat split; try done; by intros t' [=].
Qed.

Lemma event_team_index_witness :
  (∃ snap, MatchEvent.serialize (sample_event (Some sample_home))
             (Match.teams match_init) = Ok snap ∧
           snap !! "team_index" = Some (PyInt 0)) ∧
  (∃ snap, MatchEvent.serialize (sample_event (Some sample_away))
             (Match.teams match_init) = Ok snap ∧
           snap !! "team_index" = Some (PyInt 1)) ∧
  (∃ snap, MatchEvent.serialize (sample_event None)
             (Match.teams match_init) = Ok snap ∧
           snap !! "team_index" = Some (PyInt (-1))) ∧
  (∃ snap, MatchEvent.serialize (sample_event (Some sample_third))
             (Match.teams match_init) = Ok snap ∧
           snap !! "team_index" = Some (PyInt (-1))).
Proof.
  split; [|split; [|split]].
  - destruct (event_team_index (sample_event (Some sample_home)) match_init)
      as (snap & i & Hrun & Hidx & Hhome & _).
    exists snap. split; [exact Hrun|].
    by rewrite <- (Hhome sample_home eq_refl eq_refl).
  - destruct (event_team_index (sample_event (Some sample_away)) match_init)
      as (snap & i & Hrun & Hidx & _ & Haway & _).
    exists snap. split; [exact Hrun|].
    by rewrite <- (Haway sample_away eq_refl ltac:(discriminate) eq_refl).
  - destruct (event_team_index (sample_event None) match_init)
      as (snap & i & Hrun & Hidx & _ & _ & Hnone & _).
    exists snap. split; [exact Hrun|].
    by rewrite <- (Hnone eq_refl).
  - destruct (event_team_index (sample_event (Some sample_third)) match_init)
      as (snap & i & Hrun & Hidx & _ & _ & _ & Hneither).
    exists snap. split; [exact Hrun|].
    by rewrite <- (Hneither sample_third eq_refl ltac:(discriminate)
                     ltac:(discriminate)).
Defined.

(** When both team references of a match are the same team, the first
    position wins. *)
Example same_teams_index :
  ∃ snap, MatchEvent.serialize (sample_event (Some sample_home))
            (Match.teams match_same_teams) = Ok snap ∧
          snap !! "team_index" = Some (PyInt 0).
Proof.
  apply event_serialize_ok; [reflexivity|]. apply tuple_index_raises.
Qed.

(** * Further properties of the code *)

(** ** More on the guards and the table *)

(** What lets a call through the second guard: a successor of a stored
    table state, or the default state name when the stored state is no key
    of the table. *)
Lemma guard_passed (row : Match.t) (new_state : string) :
  is_Some (Match.STATES !! new_state) →
  py_in new_state
    (Match.STATES_get (Match.online_state row) (default_state row)) = true →
  (∃ st succs, Match.online_state row = Some st ∧
               Match.STATES !! st = Some succs ∧ new_state ∈ succs) ∨
  (Match.online_state row ≫= (Match.STATES !!.) = None ∧
   new_state = default_state row).
Proof.
  intros Hkey Hin.
  destruct (Match.online_state row ≫= (Match.STATES !!.)) as [succs|] eqn:Hget.
  - left. destruct (Match.online_state row) as [st|]; [|discriminate Hget].
    exists st, succs. split; [done|]. split; [done|].
    unfold Match.STATES_get in Hin. rewrite Hget in Hin.
    by apply bool_decide_eq_true_1 in Hin.
  - right. split; [done|].
    rewrite (STATES_get_outside _ _ Hget) in Hin. cbn in Hin.
    rewrite (default_contains _ _ Hkey) in Hin.
    by apply bool_decide_eq_true_1 in Hin.
Qed.

Lemma key_not_empty (st : string) : is_Some (Match.STATES !! st) → st ≠ "".
Proof. intros [succs H] ->. discriminate H. Qed.

Lemma key_not_own_successor (st : string) (succs : list string) :
  Match.STATES !! st = Some succs → st ∉ succs.
Proof.
  intros H%STATES_lookup_Some. rewrite !elem_of_cons, elem_of_nil in H.
  destruct H as [[= -> ->]|[[= -> ->]|[[= -> ->]|[[= -> ->]|[[= -> ->]|[]]]]]];
    apply (bool_decide_unpack _); vm_compute; exact I.
Qed.

Lemma stored_after_rejection (s : Match.Env) (row : Match.t) (msg : string) :
  stored s row → stored (after_rejection s row msg) row.
Proof. intros [Hrow Hid]. split; [|done]. cbn. by rewrite Hid. Qed.

Lemma stored_after_persist (s : Match.Env) (row : Match.t) (new_state : string) :
  stored s row →
  stored (after_persist s row new_state)
         (Match.set_online_state (Some new_state) row).
Proof. intros _. split; [|done]. cbn. apply lookup_insert_eq. Qed.

(** ** The re-read *)

(** X1. The outcome of a call depends on the persisted row alone: whatever
    the fields of the in-memory instance held before the call, stale or
    not, the result and the resulting tables, instance and log are the
    same. *)
Theorem reread_ignores_stale_instance
    (s : Match.Env) (row stale : Match.t) (new_state : string) :
  stored s row →
  Match.id stale = Match.id (Match.self s) →
  Match.change_state new_state (Match.with_self stale s) =
  Match.change_state new_state s.
Proof.
  intros Hs Hid.
  assert (Hs' : stored (Match.with_self stale s) row).
  { destruct Hs as [Hrow Hrid]. split; cbn; by rewrite Hid. }
  destruct (Match.STATES !! new_state) as [succs|] eqn:Hkey.
  - assert (Hk : is_Some (Match.STATES !! new_state)) by (by eexists).
    destruct (py_in new_state
      (Match.STATES_get (Match.online_state row) (default_state row))) eqn:Hin.
    + by rewrite (change_state_passed _ _ _ Hs' Hk Hin),
                 (change_state_passed _ _ _ Hs Hk Hin).
    + by rewrite (change_state_illegal _ _ _ Hs' Hk Hin),
                 (change_state_illegal _ _ _ Hs Hk Hin).
  - by rewrite (change_state_unknown _ _ _ Hs' Hkey),
               (change_state_unknown _ _ _ Hs Hkey).
Qed.

Lemma reread_ignores_stale_instance_witness :
  Match.change_state "half_first" env_stale =
  Match.change_state "half_first"
    (Match.with_self match_half_first env_stale) ∧
  fst (Match.change_state "half_first" env_stale) = Ok None.
Proof.
  split; [|reflexivity].
  exact (reread_ignores_stale_instance
           (Match.with_self match_half_first env_stale)
           match_half_first match_init "half_first"
           (conj eq_refl eq_refl) eq_refl).
Defined.

(** ** What no call touches *)

(** X2. Whatever a call returns or raises, every other row of the match
    table is as before, and the row of the match is as before in every
    field but [online_state], which is either as before or the requested
    state. *)
Theorem no_call_touches_other_fields
    (s s' : Match.Env) (row : Match.t) (new_state : string)
    (r : result (option MatchEvent.t)) :
  stored s row →
  Match.change_state new_state s = (r, s') →
  (∀ k, k ≠ Match.id row → Match.matches s' !! k = Match.matches s !! k) ∧
  ∃ row',
    Match.matches s' !! Match.id row = Some row' ∧
    Match.self s' = row' ∧
    (Match.online_state row' = Match.online_state row ∨
     Match.online_state row' = Some new_state) ∧
    Match.match_term row' = Match.match_term row ∧
    Match.category row' = Match.category row ∧
    Match.home_team_info row' = Match.home_team_info row ∧
    Match.away_team_info row' = Match.away_team_info row ∧
    Match.score_home row' = Match.score_home row ∧
    Match.score_away row' = Match.score_away row ∧
    Match.confirmed row' = Match.confirmed row ∧
    Match.confirmed_as row' = Match.confirmed_as row ∧
    Match.first_half_start row' = Match.first_half_start row ∧
    Match.second_half_start row' = Match.second_half_start row ∧
    Match.facebook_video_id row' = Match.facebook_video_id row.
Proof.
  intros Hs Hrun.
  assert (Hrow : Match.matches s !! Match.id row = Some row)
    by (destruct Hs as [Hrow ->]; exact Hrow).
  destruct (change_state_cases s row new_state Hs)
    as [(msg & Hrej & _)|(_ & _ & [(ty & half & offset & _ & Hacc)|[_ Hfault]])].
  - rewrite Hrej in Hrun. injection Hrun as _ <-. split; [done|].
    exists row. cbn. by repeat split; try left.
  - cbv zeta in Hacc. rewrite Hacc in Hrun. injection Hrun as _ <-.
    unfold after_persist. cbn [Match.matches Match.self]. split.
    + intros k Hk. by rewrite lookup_insert_ne.
    + eexists. rewrite lookup_insert_eq. by repeat split; try right.
  - rewrite Hfault in Hrun. injection Hrun as _ <-.
    unfold after_persist. cbn [Match.matches Match.self]. split.
    + intros k Hk. by rewrite lookup_insert_ne.
    + eexists. rewrite lookup_insert_eq. by repeat split; try right.
Qed.

Lemma no_call_touches_other_fields_witness :
  ∃ s', snd (Match.change_state "half_first"
               (Match.with_self match_half_first env_stale)) = s' ∧
        Match.matches s' !! 9 = Some match_other.
Proof.
  destruct (Match.change_state "half_first"
              (Match.with_self match_half_first env_stale)) as [r s'] eqn:Hrun.
  exists s'. split; [reflexivity|].
  destruct (no_call_touches_other_fields
              (Match.with_self match_half_first env_stale) s'
              match_half_first "half_first" r (conj eq_refl eq_refl) Hrun)
    as [Hother _].
  rewrite (Hother 9); [reflexivity|discriminate].
Defined.

(** ** The fault, seen from the table *)

(** X3. When a call raises, the requested state is already persisted and
    no event was created for it: the row holds the requested state, which
    is the default state name of the match ([init], or [end] for a
    confirmed match), the event table is as before, and the exception is
    the [RuntimeError] of the last branch. *)
Theorem fault_leaves_state_persisted
    (s s' : Match.Env) (row : Match.t) (new_state : string) (e : exn) :
  stored s row →
  Match.change_state new_state s = (Raise e, s') →
  persisted_state s' = Some (Some new_state) ∧
  new_state = default_state row ∧
  Match.events s' = Match.events s ∧
  e = RuntimeError
        ("Never happen: " +:+ format_opt (Match.online_state row) +:+
         " -> " +:+ new_state +:+ ".").
Proof.
  intros Hs Hrun.
  destruct (change_state_cases s row new_state Hs)
    as [(msg & Hrej & _)|(Hkey & Hin & [(ty & half & offset & _ & Hacc)|[Hk Hfault]])].
  - rewrite Hrej in Hrun. discriminate Hrun.
  - cbv zeta in Hacc. rewrite Hacc in Hrun. discriminate Hrun.
  - rewrite Hfault in Hrun. injection Hrun as <- <-.
    split; [|split; [|done]].
    + unfold persisted_state, after_persist.
      cbn [Match.matches Match.self Match.id Match.set_online_state].
      by rewrite lookup_insert_eq.
    + destruct (guard_passed row new_state Hkey Hin)
        as [(st & succs & Hst & Htab & Hsucc)|[_ Hd]]; [|done].
      exfalso. rewrite Hst in Hk.
      by apply (table_state_never_faults _ _ _ Htab Hsucc).
Qed.

Lemma fault_leaves_state_persisted_witness :
  ∃ e s', Match.change_state "init" (env_of match_corrupt) = (Raise e, s') ∧
          persisted_state s' = Some (Some "init") ∧
          Match.events s' = [].
Proof.
  destruct (Match.change_state "init" (env_of match_corrupt))
    as [[o|e] s'] eqn:Hrun; [discriminate Hrun|].
  exists e, s'. split; [reflexivity|].
  destruct (fault_leaves_state_persisted (env_of match_corrupt) s'
              match_corrupt "init" e (conj eq_refl eq_refl) Hrun)
    as (Hp & _ & Hev & _).
  split; [exact Hp | exact Hev].
Defined.

(** ** Sequences of calls *)

(** X4. An accepted call cannot be repeated: the same request made again
    right after it is rejected, creates no second event and leaves the
    tables as the first call left them. *)
Theorem accepted_call_cannot_repeat
    (s s1 : Match.Env) (row : Match.t) (new_state : string)
    (ev : MatchEvent.t) :
  stored s row →
  Match.change_state new_state s = (Ok (Some ev), s1) →
  ∃ s2, Match.change_state new_state s1 = (Ok None, s2) ∧
        Match.matches s2 = Match.matches s1 ∧
        Match.events s2 = Match.events s1.
Proof.
  intros Hs Hrun.
  destruct (change_state_cases s row new_state Hs)
    as [(msg & Hrej & _)|(Hkey & _ & [(ty & half & offset & _ & Hacc)|[_ Hfault]])].
  - rewrite Hrej in Hrun. discriminate Hrun.
  - cbv zeta in Hacc. rewrite Hacc in Hrun. injection Hrun as _ <-.
    destruct Hkey as [succs Hsuccs].
    eexists. split; [|split].
    + apply (change_state_illegal _
               (Match.set_online_state (Some new_state) row));
        [|by eexists|].
      * split; [|done]. cbn. apply lookup_insert_eq.
      * cbn [Match.online_state Match.set_online_state].
        rewrite (STATES_get_stored _ _ _ Hsuccs). cbn.
        apply bool_decide_eq_false_2. by apply key_not_own_successor.
    + reflexivity.
    + reflexivity.
  - rewrite Hfault in Hrun. discriminate Hrun.
Qed.

Lemma accepted_call_cannot_repeat_witness :
  ∃ ev s1 s2,
    Match.change_state "half_first" (env_of match_init) = (Ok (Some ev), s1) ∧
    Match.change_state "half_first" s1 = (Ok None, s2) ∧
    Match.events s2 = [ev].
Proof.
  destruct (Match.change_state "half_first" (env_of match_init))
    as [[[ev|]|e] s1] eqn:Hrun; [|discriminate Hrun..].
  destruct (accepted_call_cannot_repeat (env_of match_init) s1 match_init
              "half_first" ev (conj eq_refl eq_refl) Hrun)
    as (s2 & Hrun2 & _ & Hev).
  exists ev, s1, s2. split; [reflexivity|]. split; [exact Hrun2|].
  rewrite Hev. injection Hrun as <- <-. reflexivity.
Defined.

(** X5. From a state of the transition table a call is accepted exactly
    when it asks for the next state of the chain [init], [half_first],
    [pause], [half_second], [end]: no state is skipped, none is entered
    twice or backwards, and nothing is accepted from [end]. *)
Theorem accepted_iff_next_in_chain
    (s : Match.Env) (row : Match.t) (st new_state : string) :
  stored s row →
  Match.online_state row = Some st →
  is_Some (Match.STATES !! st) →
  (∃ ev s', Match.change_state new_state s = (Ok (Some ev), s')) ↔
  (st, new_state) ∈
    [ ("init", "half_first"); ("half_first", "pause");
      ("pause", "half_second"); ("half_second", "end") ].
Proof.
  intros Hs Hst [succs Htab]. split.
  - intros (ev & s' & Hrun).
    destruct (change_state_cases s row new_state Hs)
      as [(msg & Hrej & _)|(Hkey & Hin & _)].
    { rewrite Hrej in Hrun. discriminate Hrun. }
    rewrite Hst, (STATES_get_stored _ _ _ Htab) in Hin. cbn in Hin.
    apply bool_decide_eq_true_1 in Hin.
    apply STATES_lookup_Some in Htab.
    rewrite !elem_of_cons, elem_of_nil in Htab. rewrite !elem_of_cons.
    destruct Htab as [[= -> ->]|[[= -> ->]|[[= -> ->]|[[= -> ->]|[[= -> ->]|[]]]]]];
      [apply list_elem_of_singleton in Hin as ->; auto 6 .. |
       by apply elem_of_nil in Hin].
  - rewrite !elem_of_cons, elem_of_nil.
    intros [[= -> ->]|[[= -> ->]|[[= -> ->]|[[= -> ->]|[]]]]];
      destruct (table_step s row _ _ _ _ _ Hs Hst eq_refl eq_refl)
        as (ev & s' & Hrun & _); by exists ev, s'.
Qed.

Lemma accepted_iff_next_in_chain_witness :
  (∃ ev s', Match.change_state "half_second"
              (env_of (sample_match None (Some "pause"))) = (Ok (Some ev), s')) ∧
  ¬ (∃ ev s', Match.change_state "end"
                (env_of (sample_match None (Some "pause"))) = (Ok (Some ev), s')).
Proof.
  split.
  - apply (accepted_iff_next_in_chain (env_of (sample_match None (Some "pause")))
             (sample_match None (Some "pause")) "pause" "half_second"
             (conj eq_refl eq_refl) eq_refl).
    + by eexists.
    + apply (list_elem_of_lookup_2 _ 2). reflexivity.
  - intros H.
    apply (accepted_iff_next_in_chain (env_of (sample_match None (Some "pause")))
             (sample_match None (Some "pause")) "pause" "end"
             (conj eq_refl eq_refl) eq_refl) in H; [|by eexists].
    revert H. apply (bool_decide_unpack _). vm_compute. exact I.
Defined.

(** One call on a match whose persisted state is unset or a table key:
    it does not raise, the state stays unset or a table key, and an
    accepted call uses up one of the remaining events. *)
Lemma valid_step (s : Match.Env) (row : Match.t) (target : string) :
  stored s row →
  valid_state (Match.online_state row) = true →
  ∃ r s1 row1,
    Match.change_state target s = (Ok r, s1) ∧
    stored s1 row1 ∧
    valid_state (Match.online_state row1) = true ∧
    ((r = None ∧ Match.events s1 = Match.events s ∧
      Match.online_state row1 = Match.online_state row) ∨
     (∃ ev, r = Some ev ∧
            Match.events s1 = (Match.events s ++ [ev])%list ∧
            Match.online_state row1 = Some target ∧
            (remaining (Some target) < remaining (Match.online_state row))%nat)).
Proof.
  intros Hs Hvalid.
  destruct (change_state_cases s row target Hs)
    as [(msg & Hrej & _)|(Hkey & Hin & Hout)].
  - exists None, (after_rejection s row msg), row.
    split; [done|]. split; [by apply stored_after_rejection|].
    split; [done|]. by left.
  - assert (Hkind : event_kind (Match.online_state row) ≠ None ∧
        (remaining (Some target) < remaining (Match.online_state row))%nat).
    { destruct (guard_passed row target Hkey Hin)
        as [(st & succs & Hst & Htab & Hsucc)|[Hnone Hd]].
      - rewrite Hst. split; [by apply (table_state_never_faults _ _ _ Htab Hsucc)|].
        apply STATES_lookup_Some in Htab.
        rewrite !elem_of_cons, elem_of_nil in Htab.
        destruct Htab
          as [[= -> ->]|[[= -> ->]|[[= -> ->]|[[= -> ->]|[[= -> ->]|[]]]]]];
          [apply list_elem_of_singleton in Hsucc as ->; cbn; lia .. |
           by apply elem_of_nil in Hsucc].
      - unfold valid_state in Hvalid. rewrite Hnone in Hvalid.
        rewrite bool_decide_eq_false_2, orb_false_r in Hvalid
          by (by intros [? ?]).
        apply negb_true_iff in Hvalid.
        rewrite (unset_event_kind _ Hvalid). split; [done|].
        unfold remaining at 2. rewrite Hvalid. cbn [negb].
        rewrite Hd. unfold default_state.
        destruct (bool_datetime (Match.confirmed row)); cbn; lia. }
    destruct Hkind as [Hkind Hless].
    destruct Hout as [(ty & half & offset & _ & Hacc)|[Hk _]]; [|done].
    cbv zeta in Hacc. eexists _, _, (Match.set_online_state (Some target) row).
    split; [exact Hacc|]. split; [|split].
    + split; [|done]. cbn. apply lookup_insert_eq.
    + unfold valid_state. cbn [Match.online_state Match.set_online_state].
      change (Some target ≫= (Match.STATES !!.)) with (Match.STATES !! target).
      rewrite (bool_decide_eq_true_2 _ Hkey). apply orb_true_r.
    + right. eexists. by repeat split.
Qed.

(** X6. On a match whose persisted state is unset or a table key, a call
    never raises and the persisted state stays unset or a table key. *)
Theorem valid_state_is_kept
    (s s' : Match.Env) (row : Match.t) (new_state : string)
    (r : result (option MatchEvent.t)) :
  stored s row →
  valid_state (Match.online_state row) = true →
  Match.change_state new_state s = (r, s') →
  (∃ o, r = Ok o) ∧
  ∃ st, persisted_state s' = Some st ∧ valid_state st = true.
Proof.
  intros Hs Hvalid Hrun.
  destruct (valid_step s row new_state Hs Hvalid)
    as (o & s1 & row1 & Hrun1 & [Hrow1 Hid1] & Hvalid1 & _).
  rewrite Hrun1 in Hrun. injection Hrun as <- <-.
  split; [by exists o|]. exists (Match.online_state row1).
  split; [|done]. unfold persisted_state. by rewrite Hrow1.
Qed.

Lemma valid_state_is_kept_witness :
  ∃ o s', Match.change_state "end" (env_of match_unset_confirmed) = (Ok o, s') ∧
          persisted_state s' = Some (Some "end").
Proof.
  destruct (Match.change_state "end" (env_of match_unset_confirmed))
    as [r s'] eqn:Hrun.
  destruct (valid_state_is_kept (env_of match_unset_confirmed) s'
              match_unset_confirmed "end" r (conj eq_refl eq_refl) eq_refl Hrun)
    as [[o Ho] _].
  exists o, s'. rewrite <- Ho. split; [reflexivity|].
  injection Hrun as _ <-. reflexivity.
Defined.

(** X7. Whatever states are asked for and in whatever order, a run of
    calls on a match whose persisted state is unset or a table key never
    raises, stores exactly the events it returns, in order, and stores
    at most five of them, at most four once the state is [init], three
    from [half_first], two from [pause], one from [half_second] and none
    from [end]. *)
Theorem events_are_bounded
    (targets : list string) (s : Match.Env) (row : Match.t) :
  stored s row →
  valid_state (Match.online_state row) = true →
  ∃ rs s',
    drive targets s = (Ok rs, s') ∧
    length rs = length targets ∧
    Match.events s' = (Match.events s ++ omap fst rs)%list ∧
    (length (omap fst rs) ≤ remaining (Match.online_state row))%nat.
Proof.
  revert s row. induction targets as [|target targets IH]; intros s row Hs Hvalid.
  - exists [], s. cbn. rewrite app_nil_r. repeat split; lia.
  - destruct (valid_step s row target Hs Hvalid)
      as (r & s1 & row1 & Hrun & Hs1 & Hvalid1 & Hstep).
    destruct (IH s1 row1 Hs1 Hvalid1) as (rs & s' & Hdrive & Hlen & Hev & Hbound).
    exists ((r, persisted_state s1) :: rs), s'.
    split; [|split; [|split]].
    + cbn [drive]. unfold bind, gets, ret in *. by rewrite Hrun, Hdrive.
    + cbn. by rewrite Hlen.
    + destruct Hstep as [(-> & Hev1 & _)|(ev & -> & Hev1 & _)];
        rewrite Hev, Hev1; cbn; [done|by rewrite <- app_assoc].
    + destruct Hstep as [(-> & _ & Hst)|(ev & -> & _ & Hst & Hless)]; cbn.
      * by rewrite <- Hst.
      * rewrite Hst in Hbound. lia.
Qed.

Lemma events_are_bounded_witness :
  ∃ rs s',
    drive ["end"; "half_first"; "half_first"; "init"; "pause"; "end";
           "half_second"; "end"; "init"] (env_of match_init) = (Ok rs, s') ∧
    Match.events s' = omap fst rs ∧
    (length (Match.events s') ≤ 4)%nat.
Proof.
  destruct (events_are_bounded
              ["end"; "half_first"; "half_first"; "init"; "pause"; "end";
               "half_second"; "end"; "init"]
              (env_of match_init) match_init (conj eq_refl eq_refl) eq_refl)
    as (rs & s' & Hdrive & _ & Hev & Hbound).
  exists rs, s'. split; [exact Hdrive|]. split; [exact Hev|].
  rewrite Hev. exact Hbound.
Defined.

(** ** The calls to the logging module *)

(** X8. Every call makes exactly one call to the logging module:
    [logging.error] when it is rejected, and only then, and [logging.info]
    when it passed the guards, also when it then raises. What the logger
    writes for it is not part of the statement. *)
Theorem every_call_logs_once
    (s s' : Match.Env) (row : Match.t) (new_state : string)
    (r : result (option MatchEvent.t)) :
  stored s row →
  Match.change_state new_state s = (r, s') →
  ∃ lvl msg,
    Match.log s' = (Match.log s ++ [(lvl, msg)])%list ∧
    (lvl = Match.ERROR ↔ r = Ok None).
Proof.
  intros Hs Hrun.
  destruct (change_state_cases s row new_state Hs)
    as [(msg & Hrej & _)|(_ & _ & [(ty & half & offset & _ & Hacc)|[_ Hfault]])].
  - rewrite Hrej in Hrun. injection Hrun as <- <-.
    by exists Match.ERROR, msg.
  - cbv zeta in Hacc. rewrite Hacc in Hrun. injection Hrun as <- <-.
    eexists Match.INFO, _. split; [reflexivity|]. by split.
  - rewrite Hfault in Hrun. injection Hrun as <- <-.
    eexists Match.INFO, _. split; [reflexivity|]. by split.
Qed.

Lemma every_call_logs_once_witness :
  ∃ lvl msg,
    Match.log (snd (Match.change_state "kickoff" (env_of match_init)))
    = [(lvl, msg)] ∧
    (lvl = Match.ERROR ↔
     fst (Match.change_state "kickoff" (env_of match_init)) = Ok None).
Proof.
  exact (every_call_logs_once (env_of match_init) _ match_init "kickoff" _
           (conj eq_refl eq_refl) eq_refl).
Defined.

(** ** The snapshot after a transition *)

Lemma dict_call_Ok_inv (explicit : list (string * PyVal))
    (kwargs snap : gmap string PyVal) :
  dict_call explicit kwargs = Ok snap →
  (∀ k, k ∈ explicit.*1 → kwargs !! k = None) ∧
  snap = list_to_map explicit ∪ kwargs.
Proof.
  unfold dict_call. case_bool_decide as Hex; [done|].
  intros [= <-]. split; [|done].
  intros k ([k' v] & -> & Hin)%list_elem_of_fmap.
  destruct (kwargs !! (k', v).1) eqn:Hk; [|done].
  exfalso. apply Hex, Exists_exists. exists (k', v). split; [done|by eexists].
Qed.

Lemma snapshot_fields_after (row : Match.t) (new_state : string) :
  new_state ≠ "" →
  (list_to_map (Match.snapshot_fields
                  (Match.set_online_state (Some new_state) row))
     : gmap string PyVal) =
  <["state" := PyStr new_state]> (list_to_map (Match.snapshot_fields row)).
Proof.
  intros Hne. unfold Match.snapshot_fields.
  cbn [Match.set_online_state Match.id Match.home_team_info
       Match.away_team_info Match.category Match.first_half_start
       Match.second_half_start Match.score_home Match.score_away
       Match.confirmed Match.online_state Match.facebook_video_id].
  assert (Hor : ∀ b, Match.or_else (Some new_state) b = new_state).
  { intros b. unfold Match.or_else, truthy.
    by destruct (String.eqb_spec new_state ""). }
  rewrite Hor. cbn [list_to_map foldr fst snd uncurry].
  apply map_eq. intros k.
  destruct (decide (k = "state")) as [->|Hk].
  - rewrite lookup_insert_eq. reflexivity.
  - rewrite (lookup_insert_ne _ "state" k) by done.
    rewrite !lookup_insert. repeat case_decide; congruence.
Qed.

(** X9. After an accepted call the snapshot of the match is the snapshot
    from before the call with the [state] key set to the requested
    state: the scoreboard shows the new state and nothing else moved. *)
Theorem snapshot_follows_transition
    (s s' : Match.Env) (row : Match.t) (new_state : string)
    (ev : MatchEvent.t) (kwargs snap : gmap string PyVal) :
  stored s row →
  Match.change_state new_state s = (Ok (Some ev), s') →
  Match.serialize row kwargs = Ok snap →
  Match.serialize (Match.self s') kwargs
  = Ok (<["state" := PyStr new_state]> snap).
Proof.
  intros Hs Hrun Hsnap.
  destruct (change_state_cases s row new_state Hs)
    as [(msg & Hrej & _)|(Hkey & _ & [(ty & half & offset & _ & Hacc)|[_ Hfault]])].
  - rewrite Hrej in Hrun. discriminate Hrun.
  - cbv zeta in Hacc. rewrite Hacc in Hrun. injection Hrun as _ <-.
    cbn [Match.self after_persist].
    apply dict_call_Ok_inv in Hsnap as [Hfree ->].
    rewrite snapshot_fields_keys in Hfree.
    rewrite (serialize_ok _ _ Hfree).
    rewrite (snapshot_fields_after _ _ (key_not_empty _ Hkey)).
    by rewrite insert_union_l.
  - rewrite Hfault in Hrun. discriminate Hrun.
Qed.

Lemma snapshot_follows_transition_witness :
  ∃ ev s' snap,
    Match.change_state "half_first" (env_of match_init) = (Ok (Some ev), s') ∧
    Match.serialize (Match.self s') ∅ = Ok snap ∧
    snap !! "state" = Some (PyStr "half_first") ∧
    snap !! "home_team_name" = Some (PyStr "Litovel").
Proof.
  destruct (Match.change_state "half_first" (env_of match_init))
    as [[[ev|]|e] s'] eqn:Hrun; [|discriminate Hrun..].
  exists ev, s', (<["state" := PyStr "half_first"]>
                   (list_to_map (Match.snapshot_fields match_init) ∪ ∅)).
  split; [reflexivity|]. split.
  - apply (snapshot_follows_transition (env_of match_init) s' match_init
             "half_first" ev ∅ _ (conj eq_refl eq_refl) Hrun).
    apply serialize_ok. intros k _. apply lookup_empty.
  - split; [apply lookup_insert_eq|].
    rewrite lookup_insert_ne by discriminate.
    apply snapshot_field_lookup, (list_elem_of_lookup_2 _ 1). reflexivity.
Defined.

(** ** The event snapshot *)

(** The snapshot of an event, key by key. *)
Lemma event_serialize_run (e : MatchEvent.t) (teams : list TeamInfo.t) :
  ∃ snap i,
    MatchEvent.serialize e teams = Ok snap ∧
    i = match tuple_index MatchEvent.team_eqb teams (MatchEvent.team_info e) with
        | Ok j => j
        | Raise _ => -1
        end ∧
    dom snap = list_to_set event_snapshot_keys ∧
    snap !! "id" = Some (py_opt PyInt (MatchEvent.id e)) ∧
    snap !! "time_offset" = Some (py_opt PyInt (MatchEvent.time_offset e)) ∧
    snap !! "half_index" = Some (py_opt PyInt (MatchEvent.half_index e)) ∧
    snap !! "message" = Some (py_opt PyStr (MatchEvent.message e)) ∧
    snap !! "score" =
      Some (PyList [PyInt (MatchEvent.or0 (MatchEvent.score_home e));
                    PyInt (MatchEvent.or0 (MatchEvent.score_away e))]) ∧
    snap !! "type" = Some (py_opt PyStr (MatchEvent.type e)) ∧
    snap !! "team_index" = Some (PyInt i) ∧
    snap !! "player_name" =
      Some (py_opt (λ p, PyStr (Player.name p +:+ " " +:+ Player.surname p))
                   (MatchEvent.player e)) ∧
    snap !! "player_number" =
      Some (py_opt (λ p, PyInt (Player.number p)) (MatchEvent.player e)).
Proof.
  unfold MatchEvent.serialize.
  pose proof (tuple_index_raises MatchEvent.team_eqb teams
                (MatchEvent.team_info e)) as Hval.
  destruct (tuple_index MatchEvent.team_eqb teams (MatchEvent.team_info e))
    as [j|x]; [|rewrite (Hval x eq_refl)];
    rewrite dict_call_ok by (intros; apply lookup_empty);
    eexists _, _; (split; [reflexivity|]); (split; [reflexivity|]);
    (split; [by rewrite dom_union_L, dom_list_to_map_L, dom_empty_L,
                        (right_id_L ∅ (∪))|]);
    repeat split; apply lookup_union_Some_l;
    (apply elem_of_list_to_map_1;
      [apply (bool_decide_unpack _); vm_compute; exact I|]).
  all: first
    [ apply (list_elem_of_lookup_2 _ 0); reflexivity
    | apply (list_elem_of_lookup_2 _ 1); reflexivity
    | apply (list_elem_of_lookup_2 _ 2); reflexivity
    | apply (list_elem_of_lookup_2 _ 3); reflexivity
    | apply (list_elem_of_lookup_2 _ 4); reflexivity
    | apply (list_elem_of_lookup_2 _ 5); reflexivity
    | apply (list_elem_of_lookup_2 _ 6); reflexivity
    | apply (list_elem_of_lookup_2 _ 7); reflexivity
    | apply (list_elem_of_lookup_2 _ 8); reflexivity ].
Qed.

Lemma or0_Some (z : Z) : MatchEvent.or0 (Some z) = z.
Proof. cbn. by destruct (Z.eqb_spec z 0). Qed.

(** X10. Serializing an event never fails, whatever the event and the
    team tuple; the snapshot has exactly the nine keys, its score is a
    pair of integers in which an absent side counts as 0, and the player
    name and number are both null without a player and otherwise the
    player's "name surname" and number. *)
Theorem event_snapshot_shape (e : MatchEvent.t) (teams : list TeamInfo.t) :
  ∃ snap home away,
    MatchEvent.serialize e teams = Ok snap ∧
    dom snap = list_to_set event_snapshot_keys ∧
    snap !! "score" = Some (PyList [PyInt home; PyInt away]) ∧
    (MatchEvent.score_home e = None → home = 0) ∧
    (∀ z, MatchEvent.score_home e = Some z → home = z) ∧
    (MatchEvent.score_away e = None → away = 0) ∧
    (∀ z, MatchEvent.score_away e = Some z → away = z) ∧
    (MatchEvent.player e = None →
       snap !! "player_name" = Some PyNone ∧
       snap !! "player_number" = Some PyNone) ∧
    (∀ p, MatchEvent.player e = Some p →
       snap !! "player_name" =
         Some (PyStr (Player.name p +:+ " " +:+ Player.surname p)) ∧
       snap !! "player_number" = Some (PyInt (Player.number p))).
Proof.
  destruct (event_serialize_run e teams)
    as (snap & i & Hrun & _ & Hdom & _ & _ & _ & _ & Hscore & _ & _ & Hname & Hnum).
  eexists snap, _, _. split; [exact Hrun|]. split; [exact Hdom|].
  split; [exact Hscore|]. repeat split.
  - by intros ->.
  - intros z ->. apply or0_Some.
  - by intros ->.
  - intros z ->. apply or0_Some.
  - by rewrite Hname, H.
  - by rewrite Hnum, H.
  - by rewrite Hname, H.
  - by rewrite Hnum, H.
Qed.

Lemma event_snapshot_shape_witness :
  ∃ snap,
    MatchEvent.serialize (sample_event (Some sample_away)) [] = Ok snap ∧
    snap !! "score" = Some (PyList [PyInt 1; PyInt 0]) ∧
    snap !! "player_name" = Some PyNone.
Proof.
  destruct (event_snapshot_shape (sample_event (Some sample_away)) [])
    as (snap & home & away & Hrun & _ & Hscore & _ & Hhome & Haway & _ & Hnone & _).
  exists snap. split; [exact Hrun|]. split.
  - by rewrite Hscore, (Hhome 1 eq_refl), (Haway eq_refl).
  - exact (proj1 (Hnone eq_refl)).
Defined.

Lemma tuple_index_no_team (teams : list TeamInfo.t) :
  tuple_index MatchEvent.team_eqb teams None = Raise ValueError.
Proof. induction teams as [|a teams IH]; cbn; [done|by rewrite IH]. Qed.

(** X11. The event an accepted call returns serializes as an event of no
    team and no player: team index -1, score 0 to 0 whatever the score of
    the match, no message, no player name or number, and the key the
    event table gave it. *)
Theorem machine_event_snapshot
    (s s' : Match.Env) (row : Match.t) (new_state : string)
    (ev : MatchEvent.t) (teams : list TeamInfo.t) :
  stored s row →
  Match.change_state new_state s = (Ok (Some ev), s') →
  ∃ snap,
    MatchEvent.serialize ev teams = Ok snap ∧
    snap !! "id" = Some (PyInt (Match.event_seq s)) ∧
    snap !! "team_index" = Some (PyInt (-1)) ∧
    snap !! "score" = Some (PyList [PyInt 0; PyInt 0]) ∧
    snap !! "message" = Some PyNone ∧
    snap !! "player_name" = Some PyNone ∧
    snap !! "player_number" = Some PyNone.
Proof.
  intros Hs Hrun.
  destruct (change_state_cases s row new_state Hs)
    as [(msg & Hrej & _)|(_ & _ & [(ty & half & offset & _ & Hacc)|[_ Hfault]])].
  - rewrite Hrej in Hrun. discriminate Hrun.
  - cbv zeta in Hacc. rewrite Hacc in Hrun. injection Hrun as <- _.
    destruct (event_serialize_run
                (MatchEvent.set_id (Match.event_seq s)
                   (MatchEvent.stamp ty half offset
                      (MatchEvent.new (Match.id row)))) teams)
      as (snap & i & Hser & Hi & _ & Hid & _ & _ & Hmsg & Hscore & _ & Hidx
          & Hname & Hnum).
    cbn [MatchEvent.team_info MatchEvent.set_id MatchEvent.stamp
         MatchEvent.new] in Hi.
    rewrite tuple_index_no_team in Hi. subst i.
    exists snap. by repeat split.
  - rewrite Hfault in Hrun. discriminate Hrun.
Qed.

Lemma machine_event_snapshot_witness :
  ∃ ev s' snap,
    Match.change_state "end" (env_of match_scored) = (Ok (Some ev), s') ∧
    MatchEvent.serialize ev (Match.teams match_scored) = Ok snap ∧
    snap !! "team_index" = Some (PyInt (-1)) ∧
    snap !! "score" = Some (PyList [PyInt 0; PyInt 0]).
Proof.
  destruct (Match.change_state "end" (env_of match_scored))
    as [[[ev|]|e] s'] eqn:Hrun; [|discriminate Hrun..].
  destruct (machine_event_snapshot (env_of match_scored) s' match_scored
              "end" ev (Match.teams match_scored)
              (conj eq_refl eq_refl) Hrun)
    as (snap & Hser & _ & Hidx & Hscore & _).
  exists ev, s', snap. split; [reflexivity|].
  split; [exact Hser|]. split; [exact Hidx | exact Hscore].
Defined.

(** ** The two snapshots together *)

(** X12. The team index of an event snapshot points into the snapshot of
    its match: index 0 means the event's team is the one reported under
    [home_team_id], index 1 the one under [away_team_id], and index -1
    that its key is neither of the two. No other index occurs. *)
Theorem team_index_reads_match_snapshot
    (e : MatchEvent.t) (m : Match.t) (t : TeamInfo.t)
    (kwargs esnap msnap : gmap string PyVal) :
  MatchEvent.team_info e = Some t →
  MatchEvent.serialize e (Match.teams m) = Ok esnap →
  Match.serialize m kwargs = Ok msnap →
  (esnap !! "team_index" = Some (PyInt 0) ∧
   msnap !! "home_team_id" = Some (PyInt (TeamInfo.id t))) ∨
  (esnap !! "team_index" = Some (PyInt 1) ∧
   msnap !! "away_team_id" = Some (PyInt (TeamInfo.id t))) ∨
  (esnap !! "team_index" = Some (PyInt (-1)) ∧
   msnap !! "home_team_id" ≠ Some (PyInt (TeamInfo.id t)) ∧
   msnap !! "away_team_id" ≠ Some (PyInt (TeamInfo.id t))).
Proof.
  intros Ht Heser Hmser.
  destruct (event_serialize_run e (Match.teams m))
    as (snap & i & Hser & Hi & _ & _ & _ & _ & _ & _ & _ & Hidx & _).
  rewrite Hser in Heser. injection Heser as <-.
  apply dict_call_Ok_inv in Hmser as [_ ->].
  assert (Hhome :
    (list_to_map (Match.snapshot_fields m) ∪ kwargs) !! "home_team_id"
    = Some (PyInt (TeamInfo.id (Match.home_team_info m)))).
  { apply snapshot_field_lookup, (list_elem_of_lookup_2 _ 2). reflexivity. }
  assert (Haway :
    (list_to_map (Match.snapshot_fields m) ∪ kwargs) !! "away_team_id"
    = Some (PyInt (TeamInfo.id (Match.away_team_info m)))).
  { apply snapshot_field_lookup, (list_elem_of_lookup_2 _ 4). reflexivity. }
  rewrite Hhome, Haway, Hidx, Hi, Ht.
  unfold Match.teams, tuple_index, MatchEvent.team_eqb, TeamInfo.eqb.
  destruct (Z.eqb_spec (TeamInfo.id (Match.home_team_info m)) (TeamInfo.id t))
    as [Hh|Hh].
  - left. by rewrite Hh.
  - destruct (Z.eqb_spec (TeamInfo.id (Match.away_team_info m)) (TeamInfo.id t))
      as [Ha|Ha].
    + right. left. by rewrite Ha.
    + right. right. split; [done|]. split; congruence.
Qed.

Lemma team_index_reads_match_snapshot_witness :
  ∃ esnap msnap,
    MatchEvent.serialize (sample_event (Some sample_away))
      (Match.teams match_scored) = Ok esnap ∧
    Match.serialize match_scored ∅ = Ok msnap ∧
    esnap !! "team_index" = Some (PyInt 1) ∧
    msnap !! "away_team_id" = Some (PyInt 20).
Proof.
  destruct (MatchEvent.serialize (sample_event (Some sample_away))
              (Match.teams match_scored)) as [esnap|x] eqn:He;
    [|discriminate He].
  destruct (Match.serialize match_scored ∅) as [msnap|x] eqn:Hm;
    [|discriminate Hm].
  exists esnap, msnap. split; [reflexivity|]. split; [reflexivity|].
  destruct (team_index_reads_match_snapshot (sample_event (Some sample_away))
              match_scored sample_away ∅ esnap msnap eq_refl He Hm)
    as [[Hidx _]|[[Hidx Hid]|[Hidx _]]].
  - exfalso. injection He as <-. vm_compute in Hidx. discriminate Hidx.
  - split; [exact Hidx | exact Hid].
  - exfalso. injection He as <-. vm_compute in Hidx. discriminate Hidx.
Defined.

(** ** The dress colour labels *)

(** X13. The colour label of a team in the match snapshot is the first
    dress colour alone (null when the team has none) when the team has no
    second colour, and otherwise both colours joined by " / "; a team
    with a second colour and no first one is labelled "None / " followed
    by the second colour. *)
Theorem color_label
    (m : Match.t) (kwargs snap : gmap string PyVal)
    (key : string) (t : TeamInfo.t) :
  Match.serialize m kwargs = Ok snap →
  (key = "home_team_color_name" ∧ t = Match.home_team_info m) ∨
  (key = "away_team_color_name" ∧ t = Match.away_team_info m) →
  ∃ label,
    snap !! key = Some label ∧
    (truthy (TeamInfo.dress_color_secondary t) = false →
       label = py_opt PyStr (TeamInfo.dress_color t)) ∧
    (∀ c2, TeamInfo.dress_color_secondary t = Some c2 → c2 ≠ "" →
       (∀ c1, TeamInfo.dress_color t = Some c1 →
          label = PyStr (c1 +:+ " / " +:+ c2)) ∧
       (TeamInfo.dress_color t = None →
          label = PyStr ("None / " +:+ c2))).
Proof.
  intros Hser Hkey. apply dict_call_Ok_inv in Hser as [_ ->].
  exists (Match.format_color t). split.
  - destruct Hkey as [[-> ->]|[-> ->]]; apply snapshot_field_lookup.
    + apply (list_elem_of_lookup_2 _ 7). reflexivity.
    + apply (list_elem_of_lookup_2 _ 8). reflexivity.
  - unfold Match.format_color. split.
    + by intros ->.
    + intros c2 Hc2 Hne.
      assert (Htruthy : truthy (TeamInfo.dress_color_secondary t) = true).
      { rewrite Hc2. cbn. by destruct (String.eqb_spec c2 ""). }
      rewrite Htruthy, Hc2. split; [by intros c1 ->|by intros ->].
Qed.

Lemma color_label_witness :
  ∃ snap,
    Match.serialize
      (Match.mk 11 None sample_category team_no_primary sample_away
         None None None None None None None None) ∅ = Ok snap ∧
    snap !! "home_team_color_name" = Some (PyStr "None / white") ∧
    snap !! "away_team_color_name" = Some (PyStr "blue").
Proof.
  destruct (Match.serialize
      (Match.mk 11 None sample_category team_no_primary sample_away
         None None None None None None None None) ∅) as [snap|x] eqn:Hser;
    [|discriminate Hser].
  exists snap. split; [reflexivity|]. split.
  - destruct (color_label _ ∅ snap "home_team_color_name" team_no_primary Hser)
      as (label & Hlabel & _ & Hboth); [by left|].
    rewrite Hlabel.
    by rewrite (proj2 (Hboth "white" eq_refl ltac:(discriminate)) eq_refl).
  - destruct (color_label _ ∅ snap "away_team_color_name" sample_away Hser)
      as (label & Hlabel & Hone & _); [by right|].
    rewrite Hlabel. by rewrite (Hone eq_refl).
Defined.

(** ** A match that starts without a state *)

Lemma accepted_env (s s1 : Match.Env) (row : Match.t) (new_state : string)
    (ev : MatchEvent.t) :
  stored s row →
  Match.change_state new_state s = (Ok (Some ev), s1) →
  stored s1 (Match.set_online_state (Some new_state) row).
Proof.
  intros Hs Hrun.
  destruct (change_state_cases s row new_state Hs)
    as [(msg & Hrej & _)|(_ & _ & [(ty & half & offset & _ & Hacc)|[_ Hfault]])].
  - rewrite Hrej in Hrun. discriminate Hrun.
  - cbv zeta in Hacc. rewrite Hacc in Hrun. injection Hrun as _ <-.
    split; [|done]. cbn. apply lookup_insert_eq.
  - rewrite Hfault in Hrun. discriminate Hrun.
Qed.

(** X14. A match with no online state and no confirmation that is taken
    to [init] and then to [half_first] gets the kickoff of the first half
    twice: both calls are accepted and each stores an event of type
    [start] with half index 0 and time offset 0. *)
Theorem unset_match_gets_kickoff_twice (s : Match.Env) (row : Match.t) :
  stored s row →
  truthy (Match.online_state row) = false →
  Match.confirmed row = None →
  ∃ e1 e2 s',
    drive [Match.STATE_INIT; Match.STATE_HALF_FIRST] s
    = (Ok [ (Some e1, Some (Some Match.STATE_INIT));
            (Some e2, Some (Some Match.STATE_HALF_FIRST)) ], s') ∧
    event_triple e1 = (Some MatchEvent.TYPE_START, Some 0, Some 0) ∧
    event_triple e2 = (Some MatchEvent.TYPE_START, Some 0, Some 0) ∧
    Match.events s' = (Match.events s ++ [e1; e2])%list.
Proof.
  intros Hs Hunset Hconf.
  assert (Hd : default_state row = Match.STATE_INIT)
    by (unfold default_state; by rewrite Hconf).
  destruct (unset_accepts_default s row Hs Hunset)
    as (e1 & s1 & Hrun1 & Ht1 & Hp1 & Hev1).
  rewrite Hd in Hrun1, Hp1.
  pose proof (accepted_env s s1 row _ e1 Hs Hrun1) as Hs1.
  destruct (table_step s1 _ Match.STATE_INIT Match.STATE_HALF_FIRST _ _ _
              Hs1 eq_refl eq_refl eq_refl)
    as (e2 & s2 & Hrun2 & Ht2 & Hev2 & Hp2 & _).
  exists e1, e2, s2. split; [|split; [done|split; [done|]]].
  - unfold drive, bind, gets, ret. by rewrite Hrun1, Hp1, Hrun2, Hp2.
  - by rewrite Hev2, Hev1, <- app_assoc.
Qed.

Lemma unset_match_gets_kickoff_twice_witness :
  ∃ e1 e2 s',
    drive ["init"; "half_first"] (env_of match_unset)
    = (Ok [ (Some e1, Some (Some "init"));
            (Some e2, Some (Some "half_first")) ], s') ∧
    event_triple e1 = (Some "start", Some 0, Some 0) ∧
    event_triple e2 = (Some "start", Some 0, Some 0) ∧
    Match.events s' = [e1; e2].
Proof.
  exact (unset_match_gets_kickoff_twice (env_of match_unset) match_unset
           (conj eq_refl eq_refl) eq_refl eq_refl).
Defined.
